(** * Case converters: toKebabCase, toCamelCase, toDotCase

    A shallow embedding of the string converters of the repository (the
    kebab-case module and [refined_prompt.js]) and the proofs of their
    specified properties.

    Strings.  A JavaScript string is a sequence of UTF-16 code units, here
    a list of numbers.  The regular expressions of the source have no [u]
    and no [i] flag, and [charAt], [slice] and indexing count code units,
    so the classes [[a-z]], [[A-Z]], [[0-9]] and [\s] are predicates on one
    code unit; [\s], which is also what [trim] strips, is the WhiteSpace
    and LineTerminator set of the language.

    Case maps.  [toLowerCase] and [toUpperCase] follow the Unicode tables
    of the runtime, which are no part of the repository, and they are not
    character by character.  They are parameters of the development (class
    [Unicode]); what the proofs use of them is collected in [UnicodeLaws],
    and [asciiCase] is the instance that moves the 26 letters only. *)

From Stdlib Require Import Ascii String NArith ZArith.
From stdpp Require Import base list strings.

(** ** JavaScript values, completions and string built-ins *)

Module JS.

Abbreviation jsstring := (list N).

(** The code unit of a character of the source text. *)
Definition ch (c : ascii) : N := N_of_ascii c.

(** A string literal of the source. *)
Definition lit (s : string) : jsstring := map ch (list_ascii_of_string s).

(** Arrays, objects and functions carry no contents here: the converters
    reject them on their type alone and never look inside. *)
Inductive value : Type :=
| VUndefined
| VNull
| VBoolean (b : bool)
| VNumber (n : Z)
| VString (s : jsstring)
| VArray
| VObject
| VFunction.

(** [typeof v] *)
Definition typeof (v : value) : jsstring :=
  match v with
  | VUndefined => lit "undefined"
  | VNull => lit "object"
  | VBoolean _ => lit "boolean"
  | VNumber _ => lit "number"
  | VString _ => lit "string"
  | VArray => lit "object"
  | VObject => lit "object"
  | VFunction => lit "function"
  end.

Inductive error : Type :=
| TypeError (message : jsstring).

(** The outcome of a call: a returned value or a thrown exception. *)
Inductive completion (A : Type) : Type :=
| Return (a : A)
| Throw (e : error).
Global Arguments Return {A} a.
Global Arguments Throw {A} e.

(** [ch >= 'A' && ch <= 'Z'], the class [[A-Z]] *)
Definition isUpper (c : N) : bool :=
  ((ch "A" <=? c) && (c <=? ch "Z"))%N.

(** [ch >= 'a' && ch <= 'z'], the class [[a-z]] *)
Definition isLower (c : N) : bool :=
  ((ch "a" <=? c) && (c <=? ch "z"))%N.

(** the class [[0-9]] *)
Definition isDigit (c : N) : bool :=
  ((ch "0" <=? c) && (c <=? ch "9"))%N.

(** the class [[A-Za-z0-9]] *)
Definition isAlnum (c : N) : bool :=
  isUpper c || isLower c || isDigit c.

(** The class [\s], which is also what [trim] strips: U+0009 to U+000D,
    U+0020, U+00A0, U+1680, U+2000 to U+200A, U+2028, U+2029, U+202F,
    U+205F, U+3000 and U+FEFF. *)
Definition isSpace (c : N) : bool :=
  ((0x9 <=? c) && (c <=? 0xD) || (c =? 0x20) || (c =? 0xA0) || (c =? 0x1680)
   || (0x2000 <=? c) && (c <=? 0x200A) || (c =? 0x2028) || (c =? 0x2029)
   || (c =? 0x202F) || (c =? 0x205F) || (c =? 0x3000) || (c =? 0xFEFF))%N.

Definition isHyphen (c : N) : bool := (c =? ch "-")%N.
Definition isUnderscore (c : N) : bool := (c =? ch "_")%N.
Definition isDot (c : N) : bool := (c =? ch ".")%N.

(** The code units of the ASCII range. *)
Definition isAscii (c : N) : bool := (c <? 128)%N.

(** The case maps on the ASCII range: the 26 letters move, nothing else. *)
Definition lowerChar (c : N) : N :=
  if isUpper c then (c + 32)%N else c.

Definition upperChar (c : N) : N :=
  if isLower c then (c - 32)%N else c.

(** [s.toLowerCase()] and [s.toUpperCase()], taken from the runtime. *)
Class Unicode : Type := {
  toLowerCase : jsstring -> jsstring;
  toUpperCase : jsstring -> jsstring
}.

(** The two maps that leave every code unit outside the ASCII letters
    alone. *)
Definition asciiCase : Unicode :=
  {| toLowerCase := map lowerChar; toUpperCase := map upperChar |}.

(** What is used of the case maps of the runtime.  The language defines
    them by the locale-insensitive mappings of the Unicode Character
    Database ([UnicodeData.txt] and [SpecialCasing.txt]) applied to the
    code points of the string, a lone surrogate being left as it is.

    - [lower_ascii], [upper_ascii]: on a string of the ASCII range the 26
      letters are moved one by one and nothing else changes;
    - [lower_idem]: a lowercased string holds no character that has a
      lowercase mapping, and no capital sigma, the one character whose
      mapping depends on its neighbours;
    - [lower_no_upper]: the letters of [[A-Z]] are all mapped, and no
      mapping produces one of them;
    - [lower_hyphen]: lowercasing goes through a hyphen.  The one rule
      that looks at the context of a character, for the final sigma,
      looks for a cased letter across case-ignorable characters only, and
      the hyphen is neither cased nor case-ignorable.  (The dot is
      case-ignorable, so the like does not hold of it.)
    - [lower_delims], [upper_delims]: the mappings produce letters and
      combining marks, so neither map makes a whitespace character, a
      hyphen, an underscore or a dot that was not in the string;
    - [lower_nonempty]: no character is mapped to nothing. *)
Class UnicodeLaws (U : Unicode) : Prop := {
  lower_ascii s :
    forallb isAscii s = true -> toLowerCase s = map lowerChar s;
  upper_ascii s :
    forallb isAscii s = true -> toUpperCase s = map upperChar s;
  lower_idem s : toLowerCase (toLowerCase s) = toLowerCase s;
  lower_no_upper s : Forall (fun c => isUpper c = false) (toLowerCase s);
  lower_hyphen a b :
    toLowerCase (a ++ ch "-" :: b) = toLowerCase a ++ ch "-" :: toLowerCase b;
  lower_delims s d :
    isSpace d || isHyphen d || isUnderscore d || isDot d = true ->
    d ∈ toLowerCase s -> d ∈ s;
  upper_delims s d :
    isSpace d || isHyphen d || isUnderscore d || isDot d = true ->
    d ∈ toUpperCase s -> d ∈ s;
  lower_nonempty s : toLowerCase s = [] -> s = []
}.

(** [s.charAt(i)]: the one-character string at [i], or the empty string
    when [i] is out of range. *)
Definition charAt (s : jsstring) (i : nat) : jsstring := take 1 (drop i s).

(** [s.slice(i)], for [i >= 0] *)
Definition slice (s : jsstring) (i : nat) : jsstring := drop i s.

(** The longest prefix of characters of class [p] is removed. *)
Fixpoint dropWhile (p : N -> bool) (s : jsstring) : jsstring :=
  match s with
  | [] => []
  | c :: t => if p c then dropWhile p t else s
  end.

Definition trimStart (s : jsstring) : jsstring := dropWhile isSpace s.
Definition trimEnd (s : jsstring) : jsstring :=
  reverse (dropWhile isSpace (reverse s)).

(** [s.trim()] *)
Definition trim (s : jsstring) : jsstring := trimEnd (trimStart s).

(** [/[cls]/.test(s)]: some character of [s] is in the class. *)
Definition testClass (cls : N -> bool) (s : jsstring) : bool :=
  existsb cls s.

(** [s.split(/[cls]+/)].  The matcher walks the string; [cur] is the
    piece read since the last separator and [inSep] says that the
    previous character belonged to a separator match, which the greedy
    [+] then extends.  A separator at the very start or end leaves an
    empty piece there, as in JavaScript. *)
Fixpoint splitFrom (cls : N -> bool) (inSep : bool) (cur s : jsstring)
  : list jsstring :=
  match s with
  | [] => [cur]
  | c :: t =>
      if cls c then
        if inSep then splitFrom cls true [] t
        else cur :: splitFrom cls true [] t
      else splitFrom cls false (cur ++ [c]) t
  end.

Definition split (cls : N -> bool) (s : jsstring) : list jsstring :=
  splitFrom cls false [] s.

(** [Boolean(s)] on a string: false exactly for the empty string. *)
Definition truthy (s : jsstring) : bool :=
  match s with [] => false | _ :: _ => true end.

(** [parts.join(sep)] *)
Fixpoint join (sep : jsstring) (parts : list jsstring) : jsstring :=
  match parts with
  | [] => []
  | [p] => p
  | p :: rest => p ++ sep ++ join sep rest
  end.

(** [a === b] on strings *)
Definition strictEq (a b : jsstring) : bool := bool_decide (a = b).

End JS.

Import JS.

(** ** toKebabCase *)

Module Kebab.

(** the class [[\s_.\-]] *)
Definition isDelim (c : N) : bool :=
  isSpace c || isUnderscore c || isDot c || isHyphen c.

(** [.replace(/([a-z])([A-Z])/g, '$1-$2')].  A match consumes both
    characters, so the search resumes after the uppercase one. *)
Fixpoint hyphenateCamel (s : jsstring) : jsstring :=
  match s with
  | [] => []
  | c :: rest =>
      match rest with
      | [] => [c]
      | d :: t =>
          if isLower c && isUpper d then c :: ch "-" :: d :: hyphenateCamel t
          else c :: hyphenateCamel rest
      end
  end.

(** [.replace(/[\s_.\-]+/g, '-')].  [inRun] says that the previous
    character was taken by the current match; the first character of a
    match writes the replacement and the greedy [+] swallows the rest. *)
Fixpoint collapseFrom (inRun : bool) (s : jsstring) : jsstring :=
  match s with
  | [] => []
  | c :: t =>
      if isDelim c then
        if inRun then collapseFrom true t else ch "-" :: collapseFrom true t
      else c :: collapseFrom false t
  end.

Definition collapseDelims (s : jsstring) : jsstring := collapseFrom false s.

(** The alternative [-+$] of the last pattern, tried at each position in
    turn: it matches where everything up to the end is a hyphen. *)
Fixpoint dropTrailingHyphens (s : jsstring) : jsstring :=
  match s with
  | [] => []
  | c :: t => if forallb isHyphen s then [] else c :: dropTrailingHyphens t
  end.

(** [.replace(/^-+|-+$/g, '')].  The alternative [^-+] can only match at
    position 0 and takes every leading hyphen; the scan then goes on with
    [-+$]. *)
Definition stripHyphens (s : jsstring) : jsstring :=
  dropTrailingHyphens (dropWhile isHyphen s).

Section WithCaseMaps.
Context {U : Unicode}.

Definition toKebabCase (str : value) : completion jsstring :=
  match str with
  | VNull | VUndefined => Return []
  | VString str =>
      Return (stripHyphens (toLowerCase (collapseDelims (hyphenateCamel str))))
  | _ => Throw (TypeError (lit "Expected string, received " ++ typeof str))
  end.

End WithCaseMaps.

End Kebab.

(** ** toCamelCase

    The function of [refined_prompt.js], which is the one the specification
    describes.  (The repository also keeps an earlier three-line draft of
    the same name next to the kebab module; it is embedded further down as
    [Draft.toCamelCase].) *)

Module Camel.

(** the class [[\s\-_]] *)
Definition isDelim (c : N) : bool :=
  isSpace c || isHyphen c || isUnderscore c.

(** [/^[a-z][A-Za-z0-9]*$/.test(s)] *)
Definition testCamelShape (s : jsstring) : bool :=
  match s with
  | [] => false
  | c :: t => isLower c && forallb isAlnum t
  end.

Section WithCaseMaps.
Context {U : Unicode}.

(** [token.charAt(0).toUpperCase() + token.slice(1).toLowerCase()] *)
Definition capitalize (token : jsstring) : jsstring :=
  toUpperCase (charAt token 0) ++ toLowerCase (slice token 1).

Definition toCamelCase (input : value) : completion jsstring :=
  match input with
  | VNull | VUndefined => Return []
  | VString input =>
      let str := trim input in
      if (length str =? 0)%nat then Return []
      else if negb (testClass isDelim str) then
        if testCamelShape str && testClass isUpper str then Return str
        else if strictEq str (toUpperCase str) then Return (toLowerCase str)
        else Return (toLowerCase (charAt str 0) ++ slice str 1)
      else
        let tokens := filter (fun t => truthy t = true) (split isDelim str) in
        (* [tokens.length === 0] and [tokens[0]], read as one match *)
        match tokens with
        | [] => Return []
        | token0 :: _ =>
            let first := toLowerCase token0 in
            let rest := map capitalize (drop 1 tokens) in
            Return (join [] (first :: rest))
        end
  | _ =>
      Throw (TypeError
               (lit "toCamelCase: input must be a string, null, or undefined"))
  end.

End WithCaseMaps.

End Camel.

(** ** toDotCase *)

Module Dot.

(** the class [[\s\-_\.]] *)
Definition isDelim (c : N) : bool :=
  isSpace c || isHyphen c || isUnderscore c || isDot c.

(** A comparison [x >= 'a' && x <= 'z'] where [x] is [token[j]]: past the
    end [token[j]] is [undefined] and both comparisons are false. *)
Definition lowerAt (x : option N) : bool := from_option isLower false x.
Definition upperAt (x : option N) : bool := from_option isUpper false x.

(** The two variables of the loop of [splitCamel]. *)
Record scan : Type := Scan { parts : list jsstring; buf : jsstring }.

(** One turn of [for (let i = 1; i < token.length; i++)]. *)
Definition splitStep (token : jsstring) (st : scan) (i : nat) : scan :=
  match token !! i with
  | None => st
  | Some ch =>
      let prev := token !! (i - 1) in
      let next := token !! (i + 1) in
      let isUpper := isUpper ch in
      let prevIsLower := lowerAt prev in
      let prevIsUpper := upperAt prev in
      let nextIsLower := lowerAt next in
      if isUpper && (prevIsLower || (prevIsUpper && nextIsLower))
      then Scan (parts st ++ [buf st]) [ch]
      else Scan (parts st) (buf st ++ [ch])
  end.

Definition splitCamel (token : jsstring) : list jsstring :=
  match token with
  | [] => []
  | c0 :: _ =>
      let st := foldl (splitStep token) (Scan [] [c0])
                      (seq 1 (length token - 1)) in
      parts st ++ [buf st]
  end.

Section WithCaseMaps.
Context {U : Unicode}.

(** The two nested [for ... of] loops filling [subParts]. *)
Definition pushParts (subParts : list jsstring) (token : jsstring)
  : list jsstring :=
  foldl (fun acc p => acc ++ [toLowerCase p]) subParts (splitCamel token).

Definition toDotCase (input : value) : completion jsstring :=
  match input with
  | VNull | VUndefined => Return []
  | VString input =>
      let str := trim input in
      if (length str =? 0)%nat then Return []
      else
        let tokens := filter (fun t => truthy t = true) (split isDelim str) in
        if (length tokens =? 0)%nat then Return []
        else
          let subParts := foldl pushParts [] tokens in
          Return (join (lit ".") subParts)
  | _ =>
      Throw (TypeError
               (lit "toDotCase: input must be a string, null, or undefined"))
  end.

End WithCaseMaps.

End Dot.

(** ** The algorithms as the specification words them

    These definitions follow the prose of the specification, not the code;
    the theorems below compare them with the embedded functions. *)

Module Spec.

(** The maximal runs of a string: consecutive characters that are all in
    the class [cls] or all outside it, each tagged with which. *)
Fixpoint runs (cls : N -> bool) (s : jsstring) : list (bool * jsstring) :=
  match s with
  | [] => []
  | c :: t =>
      match runs cls t with
      | (b, r) :: rest =>
          if Bool.eqb b (cls c) then (b, c :: r) :: rest
          else (cls c, [c]) :: (b, r) :: rest
      | [] => [(cls c, [c])]
      end
  end.

(** "Split on one-or-more delimiter characters, discard empty tokens":
    the tokens are the maximal delimiter-free runs, in order. *)
Definition tokens (cls : N -> bool) (s : jsstring) : list jsstring :=
  (filter (fun r => r.1 = false) (runs cls s)).*2.

(** *** kebab-case, steps 1 to 4 *)

(** "Insert a hyphen between a lowercase letter immediately followed by
    an uppercase letter": every such adjacent pair gets one. *)
Fixpoint insertHyphens (s : jsstring) : jsstring :=
  match s with
  | [] => []
  | c :: t =>
      match t with
      | d :: _ =>
          if isLower c && isUpper d then c :: ch "-" :: insertHyphens t
          else c :: insertHyphens t
      | [] => [c]
      end
  end.

(** "Replace every run of one or more delimiter characters with a single
    hyphen." *)
Definition replaceRuns (cls : N -> bool) (s : jsstring) : jsstring :=
  concat (map (fun r : bool * jsstring => if r.1 then [ch "-"] else r.2)
              (runs cls s)).

(** "Strip leading and trailing hyphens." *)
Definition strip (s : jsstring) : jsstring :=
  reverse (dropWhile isHyphen (reverse (dropWhile isHyphen s))).

(** "Starts with a lowercase letter, consists only of letters and digits,
    and contains at least one uppercase letter", the letters being those
    of the pattern: [[a-z]] and [[A-Z]]. *)
Definition alreadyCamel (token : jsstring) : bool :=
  from_option isLower false (head token)
  && forallb isAlnum token
  && existsb isUpper token.

(** "Contains no lowercase letter", for a token of the ASCII range. *)
Definition noLowercase (token : jsstring) : bool :=
  forallb (fun c => negb (isLower c)) token.

(** "Start a new part when the current character is uppercase AND (the
    previous character is lowercase, OR the previous character is
    uppercase while the next character is lowercase)", for the character
    at index [i] of [token]. *)
Definition startsNewPart (token : jsstring) (i : nat) : Prop :=
  exists prev ch,
    0 < i /\ token !! (i - 1) = Some prev /\ token !! i = Some ch /\
    isUpper ch = true /\
    (isLower prev = true \/
     (isUpper prev = true /\
      exists next, token !! (i + 1) = Some next /\ isLower next = true)).

(** The index in the token at which each part of a partition begins,
    counting from [off]. *)
Fixpoint partStarts (off : nat) (ps : list jsstring) : list nat :=
  match ps with
  | [] => []
  | p :: rest => off :: partStarts (off + length p) rest
  end.

Section WithCaseMaps.
Context {U : Unicode}.

Definition kebab (s : jsstring) : jsstring :=
  strip (toLowerCase (replaceRuns Kebab.isDelim (insertHyphens s))).

(** *** camelCase *)

(** "Uppercase its first character, lowercase the rest." *)
Definition capitalized (token : jsstring) : jsstring :=
  match token with
  | [] => []
  | c :: t => toUpperCase [c] ++ toLowerCase t
  end.

(** "First token: lowercase entirely.  Each subsequent token: uppercase
    its first character, lowercase the rest.  Concatenate all tokens with
    no separator." *)
Definition camelWords (toks : list jsstring) : jsstring :=
  match toks with
  | [] => []
  | t :: rest => toLowerCase t ++ concat (map capitalized rest)
  end.

(** "The token, uppercased, equals itself." *)
Definition ownUppercase (token : jsstring) : bool :=
  bool_decide (toUpperCase token = token).

(** "Only its first character lowercased and the rest unchanged." *)
Definition lowerFirst (token : jsstring) : jsstring :=
  match token with
  | [] => []
  | c :: t => toLowerCase [c] ++ t
  end.

(** The single-token heuristics of the no-delimiter path. *)
Definition camelSingle (token : jsstring) : jsstring :=
  if alreadyCamel token then token
  else if ownUppercase token then toLowerCase token
  else lowerFirst token.

(** *** dot.case *)

(** "Lowercase every resulting part.  Join all parts (across all tokens)
    with [.]": the tokens are the delimiter-free runs of the trimmed
    input and the parts are what [splitCamel] makes of each. *)
Definition dotCase (s : jsstring) : jsstring :=
  join [ch "."] (map toLowerCase
                  (concat (map Dot.splitCamel (tokens Dot.isDelim (trim s))))).

End WithCaseMaps.

End Spec.

(** ** Shapes of outputs, used as invariants in the proofs *)

Module Shape.

(** The test of the loop of [splitCamel] at index [i], as a function of
    the token alone. *)
Definition boundary (token : jsstring) (i : nat) : bool :=
  from_option isUpper false (token !! i)
  && (Dot.lowerAt (token !! (i - 1))
      || Dot.upperAt (token !! (i - 1)) && Dot.lowerAt (token !! (i + 1))).

(** The state of the loop of [splitCamel] once the indices [1..k] have
    been visited. *)
Definition scanned (token : jsstring) (k : nat) : Dot.scan :=
  foldl (Dot.splitStep token) (Dot.Scan [] (take 1 token)) (seq 1 k).

(** A word of a kebab-case or dot.case output: not empty, no delimiter
    and no letter of [[A-Z]] in it, and left as it is by [toLowerCase]. *)
Definition dotWord {U : Unicode} (p : jsstring) : Prop :=
  p <> [] /\ Forall (fun c => Dot.isDelim c = false) p /\
  Forall (fun c => isUpper c = false) p /\ toLowerCase p = p.

End Shape.

(** ** The earlier toCamelCase

    The three-line function kept in the file of the kebab module.  It has
    no guard and calls [str.split] on its argument as it comes, so it is
    embedded on strings, the arguments for which its body is written. *)

Module Draft.

(** the class [[-_ ]] *)
Definition isDelim (c : N) : bool :=
  isHyphen c || isUnderscore c || (c =? ch " ")%N.

(** The callback of [map]: the first word is lowercased, every other word
    gets its first character uppercased and the rest lowercased. *)
Section WithCaseMaps.
Context {U : Unicode}.

Definition camelWord (word : jsstring) (index : nat) : jsstring :=
  if (index =? 0)%nat then toLowerCase word
  else toUpperCase (charAt word 0) ++ toLowerCase (slice word 1).

Definition toCamelCase (str : jsstring) : jsstring :=
  join [] (imap (fun index word => camelWord word index) (split isDelim str)).

End WithCaseMaps.

End Draft.

(** ** The self-tests

    What the modules run when they are executed directly.  The lines
    written to the console are left out; the counters, the exit status and
    the assertions are embedded. *)

Module SelfTest.

(** The table [testCases] of the kebab module. *)
Definition testCases : list (value * jsstring) :=
  [ (VString (lit "helloWorld"), lit "hello-world");
    (VString (lit "HelloWorld"), lit "hello-world");
    (VString (lit "hello_world"), lit "hello-world");
    (VString (lit "hello-world"), lit "hello-world");
    (VString (lit "hello.world"), lit "hello-world");
    (VString (lit "hello world"), lit "hello-world");
    (VString (lit "HELLO_WORLD"), lit "hello-world");
    (VString (lit "hello__world"), lit "hello-world");
    (VString (lit "hello--world"), lit "hello-world");
    (VString (lit "hello...world"), lit "hello-world");
    (VString (lit "hello"), lit "hello");
    (VString [], []);
    (VNull, []);
    (VUndefined, []);
    (VString (lit "helloWorldTest"), lit "hello-world-test");
    (VString (lit "-helloWorld-"), lit "hello-world") ].

(** The counters [passed] and [failed]. *)
Record tally : Type := Tally { passed : nat; failed : nat }.

Section WithCaseMaps.
Context {U : Unicode}.

(** The callback of [testCases.forEach]: a case passes when the call
    returns the expected string, and fails when it returns another one or
    throws. *)
Definition runCase (t : tally) (testCase : value * jsstring) : tally :=
  let '(input, expected) := testCase in
  match Kebab.toKebabCase input with
  | Return result =>
      if strictEq result expected then Tally (S (passed t)) (failed t)
      else Tally (passed t) (S (failed t))
  | Throw _ => Tally (passed t) (S (failed t))
  end.

Definition runCases (cases : list (value * jsstring)) : tally :=
  foldl runCase (Tally 0 0) cases.

End WithCaseMaps.

(** [process.exit(failed > 0 ? 1 : 0)] *)
Definition exitStatus (t : tally) : nat :=
  if (0 <? failed t)%nat then 1 else 0.

(** An assertion of the self-tests of [refined_prompt.js], with the call
    under test already made: [assert.strictEqual(call, expected)] or
    [assert.throws(() => call, TypeError)]. *)
Inductive assertion : Type :=
| StrictEqual (actual : completion jsstring) (expected : jsstring)
| ThrowsTypeError (actual : completion jsstring).

(** Whether the assertion lets the script go on. *)
Definition holds (a : assertion) : bool :=
  match a with
  | StrictEqual (Return result) expected => strictEq result expected
  | StrictEqual (Throw _) _ => false
  | ThrowsTypeError (Throw (TypeError _)) => true
  | ThrowsTypeError (Return _) => false
  end.

Definition tab : jsstring := [9%N].

(** The table [cases] of the self-test of [toCamelCase]. *)
Definition cases : list (value * jsstring) :=
  [ (VString (lit "hello world"), lit "helloWorld");
    (VString (lit "Hello world"), lit "helloWorld");
    (VString (lit "  multiple   spaces  between "), lit "multipleSpacesBetween");
    (VString (lit "kebab-case-example"), lit "kebabCaseExample");
    (VString (lit "snake_case_example"), lit "snakeCaseExample");
    (VString (lit "mixed-CASE_and spaces"), lit "mixedCaseAndSpaces");
    (VString (lit "--leading-delims"), lit "leadingDelims");
    (VString (lit "trailing-delims__"), lit "trailingDelims");
    (VString (lit "foo--bar__baz"), lit "fooBarBaz");
    (VString (lit "alreadyCamelCase"), lit "alreadyCamelCase");
    (VString (lit "simple"), lit "simple");
    (VString (lit "SINGLE"), lit "single");
    (VString (lit "NASA API"), lit "nasaApi");
    (VString (lit "user_123-id"), lit "user123Id");
    (VString (lit "123start middle"), lit "123startMiddle");
    (VString (lit "$pecial-char_name"), lit "$pecialCharName");
    (VString (lit "dots.are.not.delimiters"), lit "dots.are.not.delimiters");
    (VString (tab ++ lit "leading" ++ tab ++ lit "and" ++ tab ++ lit "tabs" ++ tab),
     lit "leadingAndTabs");
    (VString [], []);
    (VString (lit "   "), []);
    (VNull, []);
    (VUndefined, []) ].

Section WithCaseMaps.
Context {U : Unicode}.

(** The assertions of the self-test of [toCamelCase], in order. *)
Definition camelAssertions : list assertion :=
  map (fun c : value * jsstring => StrictEqual (Camel.toCamelCase c.1) c.2) cases
  ++ [ ThrowsTypeError (Camel.toCamelCase (VNumber 123));
       ThrowsTypeError (Camel.toCamelCase VObject);
       ThrowsTypeError (Camel.toCamelCase VArray);
       StrictEqual (Camel.toCamelCase (VString (lit "FOOBar"))) (lit "fOOBar");
       StrictEqual (Camel.toCamelCase (VString (lit "foo_bar-baz qux")))
                   (lit "fooBarBazQux") ].

(** The assertions of the self-test of [toDotCase], in order. *)
Definition dotAssertions : list assertion :=
  let eq (input : value) (expected : jsstring) :=
    StrictEqual (Dot.toDotCase input) expected in
  [ eq (VString (lit "hello world")) (lit "hello.world");
    eq (VString (lit "Hello world")) (lit "hello.world");
    eq (VString (lit "  multiple   spaces  between ")) (lit "multiple.spaces.between");
    eq (VString (lit "kebab-case-example")) (lit "kebab.case.example");
    eq (VString (lit "snake_case_example")) (lit "snake.case.example");
    eq (VString (lit "mixed-CASE_and spaces")) (lit "mixed.case.and.spaces");
    eq (VString (lit "--leading-delims")) (lit "leading.delims");
    eq (VString (lit "trailing-delims__")) (lit "trailing.delims");
    eq (VString (lit "foo--bar__baz")) (lit "foo.bar.baz");
    eq (VString (lit "alreadyCamelCase")) (lit "already.camel.case");
    eq (VString (lit "simple")) (lit "simple");
    eq (VString (lit "SINGLE")) (lit "single");
    eq (VString (lit "FOOBar")) (lit "foo.bar");
    eq (VString (lit "NASA API")) (lit "nasa.api");
    eq (VString (lit "user_123-id")) (lit "user.123.id");
    eq (VString (lit "123start middle")) (lit "123start.middle");
    eq (VString (lit "$pecial-char_name")) (lit "$pecial.char.name");
    eq (VString (lit "dots.are.not.delimiters")) (lit "dots.are.not.delimiters");
    eq (VString (tab ++ lit "leading" ++ tab ++ lit "and" ++ tab ++ lit "tabs" ++ tab))
       (lit "leading.and.tabs");
    eq (VString []) [];
    eq (VString (lit "   ")) [];
    eq VNull [];
    eq VUndefined [];
    ThrowsTypeError (Dot.toDotCase (VNumber 123));
    ThrowsTypeError (Dot.toDotCase VObject);
    ThrowsTypeError (Dot.toDotCase VArray) ].

End WithCaseMaps.

(** A failed assertion throws and ends the script; the closing
    [console.log] is reached when every assertion holds. *)
Definition allPassed (script : list assertion) : bool := forallb holds script.

End SelfTest.

(** ** splitCamel by recursion on the token

    The same partition as the loop of [splitCamel], computed from the left
    end of the token; the proofs go through it where the indices of the
    loop are in the way. *)

Module Parts.

(** The test of the loop for the character [cur] with its neighbours. *)
Definition cut (prev cur : N) (next : option N) : bool :=
  isUpper cur && (isLower prev || isUpper prev && Dot.lowerAt next).

(** [c] is put in front of the first part. *)
Definition extendFirst (c : N) (ps : list jsstring) : list jsstring :=
  match ps with
  | [] => [[c]]
  | p :: rest => (c :: p) :: rest
  end.

(** The parts of the token [prev :: s]. *)
Fixpoint partsFrom (prev : N) (s : jsstring) : list jsstring :=
  match s with
  | [] => [[prev]]
  | c :: t =>
      if cut prev c (head t) then [prev] :: partsFrom c t
      else extendFirst prev (partsFrom c t)
  end.

(** A word of two or more lowercase letters. *)
Definition lowerWord (w : jsstring) : Prop :=
  2 <= length w /\ Forall (fun c => isLower c = true) w.

(** No uppercase letter is followed at once by another one. *)
Fixpoint noUpperPair (s : jsstring) : bool :=
  match s with
  | [] => true
  | c :: t =>
      negb (isUpper c && from_option isUpper false (head t)) && noUpperPair t
  end.

End Parts.

Import Kebab Camel Dot.

(** * Proofs *)

(** ** Characters *)

(** The classes as arithmetic on the code unit. *)
Ltac classes :=
  unfold Kebab.isDelim, Camel.isDelim, Dot.isDelim, Draft.isDelim, isAlnum,
    isUpper, isLower, isDigit, isSpace, isHyphen, isUnderscore, isDot,
    isAscii, ch in *;
  repeat match goal with
    | |- context [N_of_ascii ?a] =>
        let v := eval vm_compute in (N_of_ascii a) in
        change (N_of_ascii a) with v in *
    | H : context [N_of_ascii ?a] |- _ =>
        let v := eval vm_compute in (N_of_ascii a) in
        change (N_of_ascii a) with v in *
    end;
  repeat first
    [ rewrite andb_true_iff in * | rewrite orb_true_iff in *
    | rewrite andb_false_iff in * | rewrite orb_false_iff in *
    | rewrite N.leb_le in * | rewrite N.leb_gt in *
    | rewrite N.eqb_eq in * | rewrite N.eqb_neq in *
    | rewrite N.ltb_lt in * | rewrite N.ltb_ge in * ].

Lemma lower_not_upper c : isLower c = true -> isUpper c = false.
Proof. classes. lia. Qed.

Lemma isHyphen_eq c : isHyphen c = true -> c = ch "-".
Proof. classes. done. Qed.

Lemma kebab_dot_isDelim c : Kebab.isDelim c = Dot.isDelim c.
Proof.
  unfold Kebab.isDelim, Dot.isDelim.
  destruct (isSpace c), (isUnderscore c), (isDot c), (isHyphen c); done.
Qed.

Lemma kebab_delim_not_hyphen c : Kebab.isDelim c = false -> isHyphen c = false.
Proof. unfold Kebab.isDelim. intros H. by apply orb_false_iff in H as [_ ?]. Qed.

Lemma dot_isDelim_space c : isSpace c = true -> Dot.isDelim c = true.
Proof. unfold Dot.isDelim. now intros ->. Qed.

Lemma not_delim_not_space c : Dot.isDelim c = false -> isSpace c = false.
Proof. destruct (isSpace c) eqn:E; [|done]. by rewrite dot_isDelim_space. Qed.

Lemma camel_dot_isDelim c : Camel.isDelim c = true -> Dot.isDelim c = true.
Proof. unfold Camel.isDelim, Dot.isDelim. intros ->. done. Qed.

Lemma delim_not_upper c : Dot.isDelim c = true -> isUpper c = false.
Proof. classes. lia. Qed.

Lemma delim_not_lower c : Dot.isDelim c = true -> isLower c = false.
Proof. classes. lia. Qed.

Lemma lower_not_delim c : isLower c = true -> Dot.isDelim c = false.
Proof.
  intros H. destruct (Dot.isDelim c) eqn:E; [|done].
  apply delim_not_lower in E. congruence.
Qed.

Lemma lowerChar_fixed c : isUpper c = false -> lowerChar c = c.
Proof. unfold lowerChar. now intros ->. Qed.

Lemma upperChar_fixed c : isLower c = false -> upperChar c = c.
Proof. unfold upperChar. now intros ->. Qed.

Lemma isUpper_lowerChar c : isUpper (lowerChar c) = false.
Proof.
  unfold lowerChar. destruct (isUpper c) eqn:E; [|done]. classes. lia.
Qed.

Lemma isUpper_upperChar c : isLower c = true -> isUpper (upperChar c) = true.
Proof. unfold upperChar. intros H. rewrite H. classes. lia. Qed.

Lemma isDelim_lowerChar c : Dot.isDelim (lowerChar c) = Dot.isDelim c.
Proof.
  unfold lowerChar. destruct (isUpper c) eqn:E; [|done].
  assert (Dot.isDelim c = false) as ->.
  { destruct (Dot.isDelim c) eqn:D; [|done].
    apply delim_not_upper in D. congruence. }
  classes. lia.
Qed.

Lemma isDelim_upperChar c : Dot.isDelim (upperChar c) = Dot.isDelim c.
Proof.
  unfold upperChar. destruct (isLower c) eqn:E; [|done].
  rewrite (lower_not_delim c E). classes. lia.
Qed.

Lemma isAscii_lowerChar c : isAscii (lowerChar c) = isAscii c.
Proof.
  unfold lowerChar. destruct (isUpper c) eqn:E; [|done].
  assert (isAscii c = true) as -> by (classes; lia). classes. lia.
Qed.

Lemma isAscii_upperChar c : isAscii (upperChar c) = isAscii c.
Proof.
  unfold upperChar. destruct (isLower c) eqn:E; [|done].
  assert (isAscii c = true) as -> by (classes; lia). classes. lia.
Qed.

Lemma lowerChar_upperChar c : lowerChar (upperChar c) = lowerChar c.
Proof.
  unfold upperChar. destruct (isLower c) eqn:E; [|done].
  rewrite (lowerChar_fixed c) by by apply lower_not_upper.
  unfold lowerChar. assert (isUpper (c - 32) = true) as -> by (classes; lia).
  classes. lia.
Qed.

Lemma upperChar_fixed_iff c : upperChar c = c <-> isLower c = false.
Proof.
  split; [|apply upperChar_fixed]. unfold upperChar.
  destruct (isLower c) eqn:E; [|done]. classes. lia.
Qed.

(** ** Strings *)

Lemma dropWhile_app p l m :
  dropWhile p (l ++ m) = if forallb p l then dropWhile p m else dropWhile p l ++ m.
Proof.
  induction l as [|c l IH]; simpl; [done|].
  destruct (p c); simpl; [apply IH | done].
Qed.


Lemma dropWhile_head p c t : p c = false -> dropWhile p (c :: t) = c :: t.
Proof. simpl. now intros ->. Qed.

Lemma forallb_reverse {A} (p : A -> bool) l : forallb p (reverse l) = forallb p l.
Proof.
  induction l as [|c l IH]; [done|].
  rewrite reverse_cons, forallb_app, IH. simpl.
  rewrite andb_true_r. apply andb_comm.
Qed.

Lemma dropWhile_suffix p s : exists l, s = l ++ dropWhile p s.
Proof.
  induction s as [|c t [l Hl]]; simpl.
  - now exists [].
  - destruct (p c).
    + exists (c :: l). simpl. now f_equal.
    + now exists [].
Qed.

Lemma dropWhile_Forall (P : N -> Prop) p s :
  Forall P s -> Forall P (dropWhile p s).
Proof.
  intros H. destruct (dropWhile_suffix p s) as [l Hl].
  rewrite Hl in H. now apply Forall_app in H as [_ H].
Qed.

(** ** Runs and tokens *)

Section Runs.
Variable cls : N -> bool.

Lemma runs_cons c t :
  Spec.runs cls (c :: t) =
    match Spec.runs cls t with
    | (b, r) :: rest =>
        if Bool.eqb b (cls c) then (b, c :: r) :: rest
        else (cls c, [c]) :: (b, r) :: rest
    | [] => [(cls c, [c])]
    end.
Proof. done. Qed.

Lemma runs_head c t :
  exists r rest, Spec.runs cls (c :: t) = (cls c, c :: r) :: rest.
Proof.
  rewrite runs_cons. destruct (Spec.runs cls t) as [|[b r] rest]; [by eexists _, _|].
  destruct (Bool.eqb b (cls c)) eqn:E; [|by eexists _, _].
  apply Bool.eqb_prop in E. subst b. by eexists _, _.
Qed.

Lemma replaceRuns_cons_other c t :
  cls c = false -> Spec.replaceRuns cls (c :: t) = c :: Spec.replaceRuns cls t.
Proof.
  intros Hc. unfold Spec.replaceRuns. rewrite runs_cons.
  destruct t as [|d t]; [by simpl; rewrite Hc|].
  destruct (runs_head d t) as (r & rest & ->). rewrite Hc.
  by destruct (cls d).
Qed.

Lemma replaceRuns_cons_delim c t :
  cls c = true ->
  Spec.replaceRuns cls (c :: t) = ch "-" :: Spec.replaceRuns cls (dropWhile cls t).
Proof.
  revert c. induction t as [|d t IH]; intros c Hc.
  - unfold Spec.replaceRuns. simpl. by rewrite Hc.
  - simpl dropWhile. destruct (cls d) eqn:Hd.
    + rewrite <- (IH d Hd). unfold Spec.replaceRuns. rewrite (runs_cons c).
      destruct (runs_head d t) as (r & rest & ->). by rewrite Hc, Hd.
    + unfold Spec.replaceRuns. rewrite (runs_cons c).
      destruct (runs_head d t) as (r & rest & ->). by rewrite Hc, Hd.
Qed.

Lemma tokens_cons_delim c t :
  cls c = true -> Spec.tokens cls (c :: t) = Spec.tokens cls t.
Proof.
  intros Hc. unfold Spec.tokens. rewrite runs_cons.
  destruct t as [|d t]; [by simpl; rewrite Hc|].
  destruct (runs_head d t) as (r & rest & ->). rewrite Hc.
  destruct (cls d); cbn [Bool.eqb].
  - by rewrite !filter_cons_False by (simpl; congruence).
  - by rewrite (filter_cons_False _ (true, [c])) by (simpl; congruence).
Qed.

Lemma tokens_cons_end c t :
  cls c = false -> from_option cls true (head t) = true ->
  Spec.tokens cls (c :: t) = [c] :: Spec.tokens cls t.
Proof.
  intros Hc Ht. unfold Spec.tokens. rewrite runs_cons.
  destruct t as [|d t]; [by simpl; rewrite Hc|]. simpl in Ht.
  destruct (runs_head d t) as (r & rest & ->). rewrite Hc, Ht. cbn [Bool.eqb].
  by rewrite (filter_cons_True _ (false, [c])) by done.
Qed.

Lemma tokens_cons_more c d t :
  cls c = false -> cls d = false ->
  exists r rest, Spec.tokens cls (d :: t) = (d :: r) :: rest /\
                 Spec.tokens cls (c :: d :: t) = (c :: d :: r) :: rest.
Proof.
  intros Hc Hd. unfold Spec.tokens. rewrite (runs_cons c).
  destruct (runs_head d t) as (r & rest & ->). rewrite Hc, Hd. cbn [Bool.eqb].
  exists r, (filter (fun r => r.1 = false) rest).*2.
  by rewrite !filter_cons_True by done.
Qed.

(** A delimiter-free piece followed by a delimiter is one token. *)
Lemma tokens_app_delim cur c t :
  Forall (fun a => cls a = false) cur -> cls c = true ->
  Spec.tokens cls (cur ++ c :: t) =
    (if truthy cur then [cur] else []) ++ Spec.tokens cls t.
Proof.
  intros Hcur Hc. induction Hcur as [|a cur Ha Hcur IH]; simpl.
  - by apply tokens_cons_delim.
  - destruct Hcur as [|b cur Hb Hcur]; simpl in *.
    + rewrite tokens_cons_end by (simpl; done).
      by rewrite tokens_cons_delim.
    + destruct (tokens_cons_more a b (cur ++ c :: t) Ha Hb) as (r & rest & E1 & E2).
      rewrite E2. rewrite E1 in IH. by injection IH as -> ->.
Qed.

(** A delimiter-free string is its own single token. *)
Lemma tokens_no_delim cur :
  Forall (fun a => cls a = false) cur ->
  Spec.tokens cls cur = if truthy cur then [cur] else [].
Proof.
  intros Hcur. induction Hcur as [|a cur Ha Hcur IH]; simpl; [done|].
  destruct Hcur as [|b cur Hb Hcur]; simpl in *.
  - by rewrite tokens_cons_end.
  - destruct (tokens_cons_more a b cur Ha Hb) as (r & rest & E1 & E2).
    rewrite E2. rewrite E1 in IH. by injection IH as -> ->.
Qed.

(** [split] followed by [filter(Boolean)] yields the tokens. *)
Lemma splitFrom_tokens inSep cur s :
  (inSep = true -> cur = []) ->
  Forall (fun a => cls a = false) cur ->
  filter (fun t => truthy t = true) (splitFrom cls inSep cur s)
  = Spec.tokens cls (cur ++ s).
Proof.
  revert inSep cur. induction s as [|c t IH]; intros inSep cur Hsep Hcur; simpl.
  - rewrite app_nil_r, tokens_no_delim by done.
    destruct cur; [by rewrite filter_cons_False | by rewrite filter_cons_True].
  - destruct (cls c) eqn:Hc.
    + rewrite tokens_app_delim by done. destruct inSep.
      * rewrite (Hsep eq_refl). simpl. by apply (IH true []).
      * destruct cur as [|a cur].
        -- rewrite filter_cons_False by done. by apply (IH true []).
        -- rewrite filter_cons_True by done. simpl. f_equal. by apply (IH true []).
    + rewrite (IH false (cur ++ [c])).
      * by rewrite <- app_assoc.
      * done.
      * apply Forall_app. split; [done|]. by constructor.
Qed.

(** A delimiter at either end of the string adds no token. *)
Lemma tokens_snoc_delim l c :
  cls c = true -> Spec.tokens cls (l ++ [c]) = Spec.tokens cls l.
Proof.
  intros Hc. induction l as [|a l IH]; simpl.
  - by rewrite tokens_cons_delim.
  - destruct (cls a) eqn:Ha.
    + by rewrite !tokens_cons_delim.
    + destruct l as [|b l]; simpl in *.
      * rewrite (tokens_cons_end a [c]), (tokens_cons_end a []) by done.
        by rewrite IH.
      * destruct (cls b) eqn:Hb.
        -- rewrite (tokens_cons_end a (b :: l ++ [c])),
             (tokens_cons_end a (b :: l)) by done.
           by rewrite IH.
        -- destruct (tokens_cons_more a b (l ++ [c]) Ha Hb) as (r & rest & E1 & E2).
           destruct (tokens_cons_more a b l Ha Hb) as (r' & rest' & E1' & E2').
           rewrite E2, E2'. rewrite E1, E1' in IH. by injection IH as -> ->.
Qed.

Lemma tokens_dropWhile p s :
  (forall c, p c = true -> cls c = true) ->
  Spec.tokens cls (dropWhile p s) = Spec.tokens cls s.
Proof.
  intros Hp. induction s as [|c t IH]; [done|]. simpl.
  destruct (p c) eqn:E; [|done]. by rewrite IH, tokens_cons_delim by auto.
Qed.

Lemma tokens_dropWhile_end p s :
  (forall c, p c = true -> cls c = true) ->
  Spec.tokens cls (reverse (dropWhile p (reverse s))) = Spec.tokens cls s.
Proof.
  intros Hp. induction s as [|c t IH] using rev_ind; [done|].
  rewrite reverse_snoc. simpl. destruct (p c) eqn:E.
  - by rewrite IH, tokens_snoc_delim by auto.
  - by rewrite reverse_cons, reverse_involutive.
Qed.

(** Trimming removes delimiters only, so it does not change the tokens. *)
Lemma tokens_trim s :
  (forall c, isSpace c = true -> cls c = true) ->
  Spec.tokens cls (trim s) = Spec.tokens cls s.
Proof.
  intros Hp. unfold trim, trimEnd, trimStart.
  by rewrite tokens_dropWhile_end, tokens_dropWhile.
Qed.

Lemma split_tokens s :
  filter (fun t => truthy t = true) (split cls s) = Spec.tokens cls s.
Proof. by apply (splitFrom_tokens false []). Qed.
End Runs.


(** ** The case maps of the ASCII range obey the laws *)

Lemma forallb_Forall {A} (p : A -> bool) l :
  forallb p l = true <-> Forall (fun c => p c = true) l.
Proof.
  induction l as [|c l IH]; simpl; [by split|].
  rewrite andb_true_iff, IH, Forall_cons. done.
Qed.

Lemma map_lowerChar_fixed s :
  Forall (fun c => isUpper c = false) s -> map lowerChar s = s.
Proof.
  induction 1 as [|c t Hc _ IH]; simpl; [done|].
  by rewrite (lowerChar_fixed c Hc), IH.
Qed.

Lemma map_lowerChar_no_upper s :
  Forall (fun c => isUpper c = false) (map lowerChar s).
Proof. apply Forall_map, Forall_true. intros c. apply isUpper_lowerChar. Qed.

Lemma asciiLaws : UnicodeLaws asciiCase.
Proof.
  split; simpl; try done.
  - intros s. apply map_lowerChar_fixed, map_lowerChar_no_upper.
  - apply map_lowerChar_no_upper.
  - intros a b. by rewrite map_app.
  - intros s d Hd Hin. apply list_elem_of_fmap in Hin as (c & -> & Hc).
    change (Dot.isDelim (lowerChar c) = true) in Hd.
    rewrite isDelim_lowerChar in Hd. apply delim_not_upper in Hd.
    by rewrite lowerChar_fixed.
  - intros s d Hd Hin. apply list_elem_of_fmap in Hin as (c & -> & Hc).
    change (Dot.isDelim (upperChar c) = true) in Hd.
    rewrite isDelim_upperChar in Hd. apply delim_not_lower in Hd.
    by rewrite upperChar_fixed.
  - by intros [|c s].
Qed.

(** ** toKebabCase against the four steps *)

Lemma insertHyphens_cons_not_lower d t :
  isLower d = false -> Spec.insertHyphens (d :: t) = d :: Spec.insertHyphens t.
Proof. intros Hd. destruct t; simpl; [done|]. by rewrite Hd. Qed.

(** The pattern consumes the uppercase letter of a match, yet no pair is
    missed: an uppercase letter never opens the next pair. *)
Lemma hyphenateCamel_insertHyphens s :
  hyphenateCamel s = Spec.insertHyphens s.
Proof.
  assert (H : forall n s, length s <= n -> hyphenateCamel s = Spec.insertHyphens s).
  { clear s. induction n as [|n IH]; intros [|c [|d t]] Hlen;
      simpl in Hlen; try lia; try done.
    change (hyphenateCamel (c :: d :: t)) with
      (if isLower c && isUpper d then c :: ch "-" :: d :: hyphenateCamel t
       else c :: hyphenateCamel (d :: t)).
    change (Spec.insertHyphens (c :: d :: t)) with
      (if isLower c && isUpper d then c :: ch "-" :: Spec.insertHyphens (d :: t)
       else c :: Spec.insertHyphens (d :: t)).
    destruct (isLower c && isUpper d) eqn:E.
    - apply andb_prop in E as [_ Hd].
      rewrite insertHyphens_cons_not_lower.
      + rewrite IH; [done | lia].
      + destruct (isLower d) eqn:Hl; [|done].
        apply lower_not_upper in Hl. congruence.
    - rewrite IH; [done | simpl; lia]. }
  by apply (H (length s)).
Qed.

Lemma collapseFrom_replaceRuns s :
  collapseFrom false s = Spec.replaceRuns Kebab.isDelim s /\
  collapseFrom true s = Spec.replaceRuns Kebab.isDelim (dropWhile Kebab.isDelim s).
Proof.
  induction s as [|c t [IH1 IH2]]; [done|]. simpl.
  destruct (Kebab.isDelim c) eqn:Hc.
  - rewrite replaceRuns_cons_delim by done. by rewrite IH2.
  - rewrite replaceRuns_cons_other by done. by rewrite IH1.
Qed.

Lemma collapseDelims_replaceRuns s :
  collapseDelims s = Spec.replaceRuns Kebab.isDelim s.
Proof. apply collapseFrom_replaceRuns. Qed.

Lemma dropTrailingHyphens_all s :
  forallb isHyphen s = true -> dropTrailingHyphens s = [].
Proof. destruct s as [|c t]; [done|]. unfold dropTrailingHyphens. by intros ->. Qed.

Lemma dropTrailingHyphens_reverse s :
  dropTrailingHyphens s = reverse (dropWhile isHyphen (reverse s)).
Proof.
  induction s as [|c t IH]; [done|].
  rewrite reverse_cons, dropWhile_app, forallb_reverse.
  change (dropTrailingHyphens (c :: t)) with
    (if isHyphen c && forallb isHyphen t then [] else c :: dropTrailingHyphens t).
  destruct (forallb isHyphen t) eqn:Ht.
  - rewrite dropTrailingHyphens_all by done. simpl.
    destruct (isHyphen c); done.
  - rewrite andb_false_r, reverse_app, <- IH. done.
Qed.

Lemma stripHyphens_strip s : stripHyphens s = Spec.strip s.
Proof. apply dropTrailingHyphens_reverse. Qed.


(** ** splitCamel *)


Lemma boundary_startsNewPart token i :
  0 < i -> Shape.boundary token i = true <-> Spec.startsNewPart token i.
Proof.
  intros Hi. unfold Shape.boundary, Spec.startsNewPart, lowerAt, upperAt. split.
  - intros H. apply andb_prop in H as [Hch H].
    destruct (token !! i) as [ch|]; [|done].
    destruct (token !! (i - 1)) as [prev|]; [|done]. simpl in *.
    exists prev, ch. repeat split; try done.
    apply orb_prop in H as [H|H]; [by left|]. right.
    apply andb_prop in H as [Hp Hn]. split; [done|].
    destruct (token !! (i + 1)) as [next|]; [|done]. by exists next.
  - intros (prev & ch & _ & -> & -> & Hch & H). simpl. rewrite Hch. simpl.
    destruct H as [->|[-> (next & -> & Hn)]]; [done|]. simpl.
    rewrite Hn. apply orb_true_r.
Qed.

Lemma partStarts_snoc off ps b :
  Spec.partStarts off (ps ++ [b]) = Spec.partStarts off ps ++ [off + length (concat ps)].
Proof.
  revert off. induction ps as [|p ps IH]; intros off; simpl.
  - by rewrite Nat.add_0_r.
  - by rewrite IH, length_app, Nat.add_assoc.
Qed.

Lemma splitStep_boundary token st i ch :
  token !! i = Some ch ->
  splitStep token st i =
    if Shape.boundary token i then Scan (parts st ++ [buf st]) [ch]
    else Scan (parts st) (buf st ++ [ch]).
Proof. unfold splitStep, Shape.boundary. by intros ->. Qed.

Lemma scanned_S token k :
  Shape.scanned token (S k) = splitStep token (Shape.scanned token k) (S k).
Proof. unfold Shape.scanned. by rewrite seq_S, foldl_app. Qed.

Lemma splitCamel_scanned token :
  token <> [] ->
  splitCamel token =
    parts (Shape.scanned token (length token - 1))
      ++ [buf (Shape.scanned token (length token - 1))].
Proof. by destruct token. Qed.

(** What the loop has built after the indices [1..k]: a partition of the
    first [k + 1] characters into non-empty pieces that begin at index 0
    and at the indices where the test held. *)
Lemma scanned_invariant token k :
  k < length token ->
  let all := parts (Shape.scanned token k) ++ [buf (Shape.scanned token k)] in
  concat all = take (S k) token /\
  Forall (fun p => p <> []) all /\
  forall i, i ∈ Spec.partStarts 0 all <->
            i = 0 \/ (1 <= i <= k /\ Shape.boundary token i = true).
Proof.
  induction k as [|k IH]; intros Hk; cbv zeta.
  - destruct token as [|c0 rest]; [simpl in Hk; lia|]. simpl.
    split; [done|]. split; [by repeat constructor|].
    intros i. rewrite list_elem_of_singleton. split; [by left|].
    intros [->|[? _]]; [done | lia].
  - destruct IH as (Hcat & Hne & Hst); [lia|].
    destruct (lookup_lt_is_Some_2 token (S k) Hk) as [ch Hch].
    rewrite scanned_S, (splitStep_boundary _ _ _ ch Hch).
    set (st := Shape.scanned token k) in *.
    assert (Htake : take (S (S k)) token = take (S k) token ++ [ch])
      by (by rewrite (take_S_r _ _ ch)).
    destruct (Shape.boundary token (S k)) eqn:Hb; simpl.
    + split; [by rewrite concat_app, Hcat, Htake; simpl|].
      split; [apply Forall_app; split; [done | by repeat constructor]|].
      intros i. rewrite partStarts_snoc, elem_of_app, Hst, list_elem_of_singleton.
      rewrite Hcat, length_take, Nat.add_0_l, Nat.min_l by lia.
      split.
      * intros [[->|[? ?]]| ->]; [by left | right; split; [lia|done] |].
        right. split; [lia | done].
      * intros [->|[? Hi]]; [by left; left|].
        destruct (decide (i = S k)) as [->|]; [right; lia|].
        left; right. split; [lia|done].
    + apply Forall_app in Hne as [Hne1 Hne2].
      split; [|split].
      * rewrite Htake, <- Hcat, !concat_app. simpl.
        by rewrite !app_nil_r, app_assoc.
      * apply Forall_app. split; [done|]. constructor; [|done].
        by destruct (buf st).
      * intros i. rewrite partStarts_snoc.
        rewrite partStarts_snoc in Hst. rewrite Hst.
        split.
        -- intros [->|[? ?]]; [by left | right; split; [lia|done]].
        -- intros [->|[? Hi]]; [by left|].
           destruct (decide (i = S k)) as [->|]; [congruence|].
           right. split; [lia|done].
Qed.

(** The parts of a token partition it into non-empty pieces that begin at
    index 0 and at the indices singled out by the specification. *)
Lemma splitCamel_partition token :
  token <> [] ->
  concat (splitCamel token) = token /\
  Forall (fun p => p <> []) (splitCamel token) /\
  forall i, i ∈ Spec.partStarts 0 (splitCamel token) <->
            i = 0 \/ Spec.startsNewPart token i.
Proof.
  intros Hne. rewrite splitCamel_scanned by done.
  assert (Hlen : length token - 1 < length token)
    by (destruct token; [done | simpl; lia]).
  destruct (scanned_invariant token _ Hlen) as (Hcat & Hparts & Hst).
  split; [by rewrite Hcat, take_ge by lia|]. split; [done|].
  intros i. rewrite Hst. split.
  - intros [->|[Hi Hb]]; [by left|]. right.
    apply boundary_startsNewPart; [lia | done].
  - intros [->|H]; [by left|]. right.
    pose proof H as (prev & ch & Hi & _ & Hch & _).
    apply lookup_lt_Some in Hch.
    split; [lia|]. apply boundary_startsNewPart; [lia | done].
Qed.

Lemma runs_classified cls s :
  Forall (fun r : bool * jsstring =>
            r.2 <> [] /\ Forall (fun c => cls c = r.1) r.2) (Spec.runs cls s).
Proof.
  induction s as [|c t IH]; [constructor|]. rewrite runs_cons.
  destruct (Spec.runs cls t) as [|[b r] rest].
  - by repeat constructor.
  - apply Forall_cons in IH as [[Hne Hr] Hrest]. simpl in Hne, Hr.
    destruct (Bool.eqb b (cls c)) eqn:E.
    + apply Bool.eqb_prop in E. constructor; [|done]. simpl.
      split; [done|]. by constructor.
    + constructor; [by repeat constructor|].
      by constructor.
Qed.

Lemma tokens_words cls s :
  Forall (fun t => t <> [] /\ Forall (fun c => cls c = false) t) (Spec.tokens cls s).
Proof.
  unfold Spec.tokens. apply Forall_fmap, Forall_forall.
  intros [b r] Hin. apply list_elem_of_filter in Hin as [Hb Hin]. simpl in Hb.
  pose proof (runs_classified cls s) as H.
  rewrite Forall_forall in H. specialize (H _ Hin). simpl in *. by subst b.
Qed.


(** ** Strings of the ASCII range *)

Lemma insertHyphens_Forall (P : N -> Prop) s :
  P (ch "-") -> Forall P s -> Forall P (Spec.insertHyphens s).
Proof.
  intros Hh. induction 1 as [|c t Hc Ht IH]; [constructor|].
  destruct t as [|d t]; [by repeat constructor|].
  change (Spec.insertHyphens (c :: d :: t)) with
    (if isLower c && isUpper d then c :: ch "-" :: Spec.insertHyphens (d :: t)
     else c :: Spec.insertHyphens (d :: t)).
  destruct (isLower c && isUpper d); by repeat constructor.
Qed.

Lemma collapseFrom_Forall (P : N -> Prop) b s :
  P (ch "-") -> Forall P s -> Forall P (collapseFrom b s).
Proof.
  intros Hh Hs. revert b. induction Hs as [|c t Hc Ht IH]; intros b; simpl.
  - constructor.
  - destruct (Kebab.isDelim c); [destruct b|]; try constructor; by auto.
Qed.

Lemma trim_Forall (P : N -> Prop) s : Forall P s -> Forall P (trim s).
Proof.
  intros H. unfold trim, trimEnd, trimStart.
  by apply Forall_reverse, dropWhile_Forall, Forall_reverse, dropWhile_Forall.
Qed.

Lemma splitFrom_Forall (P : N -> Prop) cls b cur s :
  Forall P cur -> Forall P s -> Forall (Forall P) (splitFrom cls b cur s).
Proof.
  intros Hcur Hs. revert b cur Hcur.
  induction Hs as [|c t Hc Ht IH]; intros b cur Hcur; simpl.
  - by repeat constructor.
  - destruct (cls c); [destruct b|].
    + by apply IH.
    + constructor; [done|]. by apply IH.
    + apply IH, Forall_app. by split; [|repeat constructor].
Qed.

Lemma filter_Forall {A} (P : A -> Prop) (p : A -> Prop) `{!forall x, Decision (p x)} l :
  Forall P l -> Forall P (filter p l).
Proof.
  rewrite !Forall_forall. intros HP x Hx.
  apply list_elem_of_filter in Hx as [_ Hx]. by apply HP.
Qed.

Lemma map_ext_Forall {A B} (f g : A -> B) l :
  Forall (fun x => f x = g x) l -> map f l = map g l.
Proof. induction 1 as [|x l Hx _ IH]; [done|]. simpl. by rewrite Hx, IH. Qed.

Lemma tokens_Forall (P : N -> Prop) cls s :
  Forall P s -> Forall (Forall P) (Spec.tokens cls s).
Proof.
  intros Hs. rewrite <- split_tokens. apply filter_Forall.
  by apply splitFrom_Forall.
Qed.

Lemma splitCamel_Forall (P : N -> Prop) token :
  Forall P token -> Forall (Forall P) (splitCamel token).
Proof.
  intros H. destruct token as [|c t] eqn:E; [constructor|]. rewrite <- E in *.
  destruct (splitCamel_partition token) as (Hcat & _); [by rewrite E|].
  rewrite <- Hcat in H. by apply Forall_concat in H.
Qed.

(** ** From the case maps of the runtime to those of the ASCII range *)

Section OnAscii.
Context {U : Unicode} {L : UnicodeLaws U}.

Lemma lower_nil : toLowerCase [] = [].
Proof. by rewrite lower_ascii. Qed.

Lemma upper_nil : toUpperCase [] = [].
Proof. by rewrite upper_ascii. Qed.

Lemma lower_asciiCase s :
  Forall (fun c => isAscii c = true) s ->
  toLowerCase s = @toLowerCase asciiCase s.
Proof. intros H. apply lower_ascii. by apply forallb_Forall. Qed.

Lemma upper_asciiCase s :
  Forall (fun c => isAscii c = true) s ->
  toUpperCase s = @toUpperCase asciiCase s.
Proof. intros H. apply upper_ascii. by apply forallb_Forall. Qed.

Lemma capitalize_asciiCase token :
  Forall (fun c => isAscii c = true) token ->
  capitalize token = @capitalize asciiCase token.
Proof.
  intros H. unfold capitalize, charAt, slice.
  by rewrite upper_asciiCase, lower_asciiCase
    by (try apply Forall_take; by apply Forall_drop).
Qed.

(** On an ASCII string the converters do what they do with the ASCII case
    maps, which can be run. *)
Lemma toKebabCase_ascii s :
  forallb isAscii s = true ->
  toKebabCase (VString s) = @toKebabCase asciiCase (VString s).
Proof.
  intros H. apply forallb_Forall in H. unfold toKebabCase.
  rewrite lower_asciiCase; [done|].
  apply collapseFrom_Forall; [done|]. rewrite hyphenateCamel_insertHyphens.
  by apply insertHyphens_Forall.
Qed.

Lemma toCamelCase_ascii s :
  forallb isAscii s = true ->
  toCamelCase (VString s) = @toCamelCase asciiCase (VString s).
Proof.
  intros H. apply forallb_Forall in H. unfold toCamelCase. cbv zeta.
  pose proof (trim_Forall _ s H) as Ht.
  rewrite (upper_asciiCase (trim s)), (lower_asciiCase (trim s)) by done.
  rewrite (lower_asciiCase (charAt (trim s) 0))
    by (unfold charAt; by apply Forall_take, Forall_drop).
  pose proof (splitFrom_Forall _ Camel.isDelim false [] (trim s)
                (Forall_nil_2 _) Ht) as Hp.
  apply (filter_Forall _ (fun t => truthy t = true)) in Hp.
  fold (split Camel.isDelim (trim s)) in Hp.
  destruct (filter _ (split Camel.isDelim (trim s))) as [|token0 rest]; [done|].
  apply Forall_cons in Hp as [H0 Hrest].
  rewrite (lower_asciiCase token0) by done. simpl drop.
  rewrite (map_ext_Forall capitalize (@capitalize asciiCase) rest); [done|].
  eapply Forall_impl; [exact Hrest|]. apply capitalize_asciiCase.
Qed.

Lemma pushParts_asciiCase acc token :
  Forall (fun c => isAscii c = true) token ->
  pushParts acc token = @pushParts asciiCase acc token.
Proof.
  intros H. unfold pushParts.
  pose proof (splitCamel_Forall _ token H) as Hp. revert acc.
  induction Hp as [|p ps Hpa _ IH]; intros acc; [done|]. simpl.
  by rewrite (lower_asciiCase p), IH.
Qed.

Lemma toDotCase_ascii s :
  forallb isAscii s = true ->
  toDotCase (VString s) = @toDotCase asciiCase (VString s).
Proof.
  intros H. apply forallb_Forall in H. unfold toDotCase. cbv zeta.
  pose proof (trim_Forall _ s H) as Ht.
  pose proof (splitFrom_Forall _ Dot.isDelim false [] (trim s)
                (Forall_nil_2 _) Ht) as Hp.
  apply (filter_Forall _ (fun t => truthy t = true)) in Hp.
  fold (split Dot.isDelim (trim s)) in Hp.
  assert (E : forall acc toks,
             Forall (Forall (fun c => isAscii c = true)) toks ->
             foldl pushParts acc toks = foldl (@pushParts asciiCase) acc toks).
  { intros acc toks Htoks. revert acc.
    induction Htoks as [|t toks Ha _ IH]; intros acc; [done|]. simpl.
    by rewrite pushParts_asciiCase, IH. }
  by rewrite E.
Qed.

(** ** toKebabCase against the four steps, for every string *)

(** C1.  On every string, [toKebabCase] returns what the four steps of the
    specification compute: a hyphen inserted between each lowercase letter
    and an uppercase letter right after it, then each run of delimiters
    (whitespace, underscore, period, hyphen) replaced by one hyphen, then
    the string lowercased, then leading and trailing hyphens stripped.  In
    particular "HelloWorld" and "hello...world" both give "hello-world". *)
Theorem toKebabCase_four_steps :
  (forall s : jsstring, toKebabCase (VString s) = Return (Spec.kebab s)) /\
  toKebabCase (VString (lit "HelloWorld")) = Return (lit "hello-world") /\
  toKebabCase (VString (lit "hello...world")) = Return (lit "hello-world").
Proof.
  split; [|split; by rewrite toKebabCase_ascii].
  intros s. unfold toKebabCase, Spec.kebab.
  by rewrite stripHyphens_strip, collapseDelims_replaceRuns,
    hyphenateCamel_insertHyphens.
Qed.

End OnAscii.

Lemma toKebabCase_four_steps_witness :
  (forall s : jsstring,
     @toKebabCase asciiCase (VString s) = Return (@Spec.kebab asciiCase s)) /\
  @toKebabCase asciiCase (VString (lit "HelloWorld")) = Return (lit "hello-world") /\
  @toKebabCase asciiCase (VString (lit "hello...world")) = Return (lit "hello-world").
Proof. apply (@toKebabCase_four_steps asciiCase asciiLaws). Defined.

(** ** toCamelCase *)

Lemma testCamelShape_alreadyCamel t :
  testCamelShape t && testClass isUpper t = Spec.alreadyCamel t.
Proof.
  destruct t as [|c r]; [done|]. unfold Spec.alreadyCamel. simpl.
  destruct (isLower c) eqn:Hc; [|done]. unfold isAlnum at 2.
  by rewrite Hc, orb_true_r.
Qed.

Lemma join_empty_sep parts : join [] parts = concat parts.
Proof.
  induction parts as [|p [|q rest] IH]; simpl in *; [done| |].
  - by rewrite app_nil_r.
  - by rewrite IH.
Qed.

Lemma testClass_Forall cls s :
  testClass cls s = false <-> Forall (fun c => cls c = false) s.
Proof.
  unfold testClass. induction s as [|c t IH]; simpl.
  - split; [constructor | done].
  - rewrite orb_false_iff, IH, Forall_cons. done.
Qed.

Lemma map_upperChar_fixed t :
  map upperChar t = t <-> Spec.noLowercase t = true.
Proof.
  unfold Spec.noLowercase. induction t as [|c r IH]; simpl; [done|].
  rewrite andb_true_iff, negb_true_iff, <- IH, <- upperChar_fixed_iff.
  split; [by intros [= ? ?] | by intros [-> ->]].
Qed.

Section CamelProofs.
Context {U : Unicode} {L : UnicodeLaws U}.

Lemma strictEq_ownUppercase t :
  strictEq t (toUpperCase t) = Spec.ownUppercase t.
Proof. unfold strictEq, Spec.ownUppercase. by apply bool_decide_ext. Qed.

(** On the ASCII range, equal to its own uppercasing means without
    lowercase letter. *)
Lemma ownUppercase_ascii t :
  forallb isAscii t = true -> Spec.ownUppercase t = Spec.noLowercase t.
Proof.
  intros H. unfold Spec.ownUppercase. rewrite upper_ascii by done.
  destruct (Spec.noLowercase t) eqn:E.
  - apply bool_decide_eq_true. by apply map_upperChar_fixed.
  - apply bool_decide_eq_false. rewrite map_upperChar_fixed. congruence.
Qed.

Lemma lowerFirst_charAt t :
  t <> [] -> toLowerCase (charAt t 0) ++ slice t 1 = Spec.lowerFirst t.
Proof. by destruct t. Qed.

Lemma capitalize_capitalized token : capitalize token = Spec.capitalized token.
Proof.
  destruct token as [|c t]; [|done]. unfold capitalize. simpl.
  by rewrite upper_nil, lower_nil.
Qed.

(** The no-delimiter path, in the words of the specification. *)
Lemma toCamelCase_single s :
  trim s <> [] -> testClass Camel.isDelim (trim s) = false ->
  toCamelCase (VString s) = Return (Spec.camelSingle (trim s)).
Proof.
  intros Hne Hnd. unfold toCamelCase, Spec.camelSingle. cbv zeta.
  destruct (trim s) as [|c t] eqn:E; [done|]. cbn [length Nat.eqb].
  rewrite Hnd. cbn [negb].
  rewrite testCamelShape_alreadyCamel, strictEq_ownUppercase,
    lowerFirst_charAt by done.
  by repeat case_match.
Qed.

(** The delimiter path, in the words of the specification. *)
Lemma toCamelCase_words s :
  testClass Camel.isDelim (trim s) = true ->
  toCamelCase (VString s) =
    Return (Spec.camelWords (Spec.tokens Camel.isDelim (trim s))).
Proof.
  intros Hd. unfold toCamelCase. cbv zeta.
  destruct (trim s) as [|c t] eqn:E; [done|]. cbn [length Nat.eqb].
  rewrite Hd. cbn [negb]. rewrite split_tokens.
  destruct (Spec.tokens Camel.isDelim (c :: t)) as [|t0 rest]; [done|].
  unfold Spec.camelWords. rewrite join_empty_sep. simpl. f_equal. f_equal. f_equal.
  apply map_ext. apply capitalize_capitalized.
Qed.

(** The result of [toCamelCase] on a string, whichever path is taken. *)
Lemma toCamelCase_result s :
  toCamelCase (VString s) =
    Return (if testClass Camel.isDelim (trim s)
            then Spec.camelWords (Spec.tokens Camel.isDelim (trim s))
            else Spec.camelSingle (trim s)).
Proof.
  destruct (testClass Camel.isDelim (trim s)) eqn:Hd.
  - by apply toCamelCase_words.
  - destruct (decide (trim s = [])) as [E|E].
    + unfold toCamelCase, Spec.camelSingle, Spec.ownUppercase. rewrite E.
      by rewrite upper_nil, lower_nil.
    + by apply toCamelCase_single.
Qed.

Lemma camel_tokens_trim s :
  Spec.tokens Camel.isDelim (trim s) = Spec.tokens Camel.isDelim s.
Proof. apply tokens_trim. intros c Hc. unfold Camel.isDelim. by rewrite Hc. Qed.

(** C2.  When the trimmed input contains a delimiter (whitespace, hyphen or
    underscore), [toCamelCase] splits it on runs of delimiters, drops the
    empty tokens, lowercases the first token, turns each later token into
    its first character uppercased followed by the rest lowercased, and
    concatenates them; the tokens are the same whether the input is split
    before or after trimming.  So "kebab-case-example" gives
    "kebabCaseExample" and "$pecial-char_name" gives "$pecialCharName". *)
Theorem toCamelCase_delimiter_path :
  (forall s : jsstring,
     testClass Camel.isDelim (trim s) = true ->
     toCamelCase (VString s) =
       Return (Spec.camelWords (Spec.tokens Camel.isDelim s)) /\
     Spec.tokens Camel.isDelim (trim s) = Spec.tokens Camel.isDelim s) /\
  toCamelCase (VString (lit "kebab-case-example")) = Return (lit "kebabCaseExample") /\
  toCamelCase (VString (lit "$pecial-char_name")) = Return (lit "$pecialCharName").
Proof.
  split; [|split; by rewrite toCamelCase_ascii]. intros s Hd.
  split; [|apply camel_tokens_trim].
  rewrite <- camel_tokens_trim. by apply toCamelCase_words.
Qed.

(** C5.  When the trimmed input is not empty and contains no delimiter
    (whitespace, hyphen, underscore), [toCamelCase] returns the trimmed
    token unchanged if it starts with a lowercase letter, consists of
    letters and digits only and contains an uppercase letter; otherwise the
    token lowercased if it equals its own uppercasing, which on the ASCII
    range is to contain no lowercase letter; otherwise the token with only
    its first character lowercased; so "SINGLE" gives "single" and
    "alreadyCamelCase" is returned as it is. *)
Theorem toCamelCase_single_token :
  (forall s : jsstring,
     trim s <> [] -> testClass Camel.isDelim (trim s) = false ->
     toCamelCase (VString s) =
       Return (if Spec.alreadyCamel (trim s) then trim s
               else if Spec.ownUppercase (trim s) then toLowerCase (trim s)
               else Spec.lowerFirst (trim s))) /\
  (forall t : jsstring,
     forallb isAscii t = true ->
     Spec.ownUppercase t = true <-> Spec.noLowercase t = true) /\
  toCamelCase (VString (lit "SINGLE")) = Return (lit "single") /\
  toCamelCase (VString (lit "alreadyCamelCase")) = Return (lit "alreadyCamelCase").
Proof.
  split; [apply toCamelCase_single|].
  split; [|split; by rewrite toCamelCase_ascii].
  intros t Ht. by rewrite ownUppercase_ascii.
Qed.

(** C6.  The period is not a delimiter for [toCamelCase]: a trimmed input
    without whitespace, hyphen or underscore is one token whatever dots it
    contains, and it goes through the single-token heuristics as a whole;
    in particular "dots.are.not.delimiters" is returned unchanged. *)
Theorem toCamelCase_dot_not_delimiter :
  Camel.isDelim (ch ".") = false /\
  (forall s : jsstring,
     trim s <> [] -> testClass Camel.isDelim (trim s) = false ->
     Spec.tokens Camel.isDelim (trim s) = [trim s] /\
     toCamelCase (VString s) = Return (Spec.camelSingle (trim s))) /\
  toCamelCase (VString (lit "dots.are.not.delimiters"))
    = Return (lit "dots.are.not.delimiters").
Proof.
  split; [reflexivity|]. split; [|by rewrite toCamelCase_ascii].
  intros s Hne Hnd. split; [|by apply toCamelCase_single].
  rewrite tokens_no_delim by by apply testClass_Forall.
  by destruct (trim s).
Qed.

End CamelProofs.

Lemma toCamelCase_delimiter_path_witness :
  testClass Camel.isDelim (trim (lit "  mixed-CASE_and spaces ")) = true /\
  @toCamelCase asciiCase (VString (lit "  mixed-CASE_and spaces ")) =
    Return (lit "mixedCaseAndSpaces").
Proof.
  split; [reflexivity|].
  rewrite (proj1 (proj1 (@toCamelCase_delimiter_path asciiCase asciiLaws)
                    (lit "  mixed-CASE_and spaces ") eq_refl)).
  reflexivity.
Defined.

Lemma toCamelCase_single_token_witness :
  trim (lit " FOOBar ") <> [] /\
  testClass Camel.isDelim (trim (lit " FOOBar ")) = false /\
  @toCamelCase asciiCase (VString (lit " FOOBar ")) = Return (lit "fOOBar").
Proof.
  split; [discriminate|]. split; [reflexivity|].
  rewrite (proj1 (@toCamelCase_single_token asciiCase asciiLaws) (lit " FOOBar "));
    [reflexivity | discriminate | reflexivity].
Defined.

Lemma toCamelCase_dot_not_delimiter_witness :
  trim (lit "Dots.Are.Kept") <> [] /\
  testClass Camel.isDelim (trim (lit "Dots.Are.Kept")) = false /\
  Spec.tokens Camel.isDelim (trim (lit "Dots.Are.Kept")) = [trim (lit "Dots.Are.Kept")] /\
  @toCamelCase asciiCase (VString (lit "Dots.Are.Kept")) = Return (lit "dots.Are.Kept").
Proof.
  split; [discriminate|]. split; [reflexivity|].
  destruct (proj1 (proj2 (@toCamelCase_dot_not_delimiter asciiCase asciiLaws))
              (lit "Dots.Are.Kept")) as [E1 E2]; [discriminate | reflexivity |].
  split; [exact E1|]. rewrite E2. reflexivity.
Defined.

(** ** Null, undefined and values of other types *)

(** C8.  Each of the three converters returns the empty string for [null]
    and for [undefined]. *)
Theorem null_undefined_empty {U : Unicode} :
  toKebabCase VNull = Return [] /\ toKebabCase VUndefined = Return [] /\
  toCamelCase VNull = Return [] /\ toCamelCase VUndefined = Return [] /\
  toDotCase VNull = Return [] /\ toDotCase VUndefined = Return [].
Proof. repeat split. Qed.

(** C9.  On a value that is neither a string nor [null] nor [undefined],
    each of the three converters throws a [TypeError]; the call yields
    the exception and no string at all. *)
Theorem non_string_throws {U : Unicode} (v : value) :
  (forall s, v <> VString s) -> v <> VNull -> v <> VUndefined ->
  toKebabCase v = Throw (TypeError (lit "Expected string, received " ++ typeof v)) /\
  toCamelCase v =
    Throw (TypeError (lit "toCamelCase: input must be a string, null, or undefined")) /\
  toDotCase v =
    Throw (TypeError (lit "toDotCase: input must be a string, null, or undefined")).
Proof.
  intros Hs Hn Hu. destruct v; try done. by destruct (Hs s).
Qed.

Lemma non_string_throws_witness :
  @toKebabCase asciiCase (VNumber 123)
    = Throw (TypeError (lit "Expected string, received number")) /\
  @toCamelCase asciiCase (VNumber 123) =
    Throw (TypeError (lit "toCamelCase: input must be a string, null, or undefined")) /\
  @toDotCase asciiCase (VNumber 123) =
    Throw (TypeError (lit "toDotCase: input must be a string, null, or undefined")).
Proof. apply (@non_string_throws asciiCase (VNumber 123)); discriminate. Defined.

(** ** splitCamel *)

Section SplitCamelProofs.
Context {U : Unicode} {L : UnicodeLaws U}.

(** C3.  [splitCamel] cuts a token into parts by a left-to-right scan that
    opens a new part exactly at the characters that are uppercase and come
    after a lowercase letter, or after an uppercase letter when a lowercase
    letter follows: the parts are non-empty, put together they give the
    token back, and they begin at index 0 and at those indices only.  So
    [toDotCase] turns "FOOBar" into "foo.bar" and "alreadyCamelCase" into
    "already.camel.case". *)
Theorem splitCamel_boundaries :
  (forall token : jsstring,
     token <> [] ->
     concat (splitCamel token) = token /\
     Forall (fun p => p <> []) (splitCamel token) /\
     forall i, i ∈ Spec.partStarts 0 (splitCamel token) <->
               i = 0 \/ Spec.startsNewPart token i) /\
  toDotCase (VString (lit "FOOBar")) = Return (lit "foo.bar") /\
  toDotCase (VString (lit "alreadyCamelCase")) = Return (lit "already.camel.case").
Proof. split; [apply splitCamel_partition | split; by rewrite toDotCase_ascii]. Qed.

End SplitCamelProofs.

Lemma splitCamel_boundaries_witness :
  lit "FOOBar" <> [] /\
  concat (splitCamel (lit "FOOBar")) = lit "FOOBar" /\
  Forall (fun p => p <> []) (splitCamel (lit "FOOBar")) /\
  forall i, i ∈ Spec.partStarts 0 (splitCamel (lit "FOOBar")) <->
            i = 0 \/ Spec.startsNewPart (lit "FOOBar") i.
Proof.
  split; [discriminate|].
  apply (proj1 (@splitCamel_boundaries asciiCase asciiLaws) (lit "FOOBar")).
  discriminate.
Defined.

(** ** toDotCase *)

Lemma foldl_push {A B} (f : A -> B) acc l :
  foldl (fun acc p => acc ++ [f p]) acc l = acc ++ map f l.
Proof.
  revert acc. induction l as [|x l IH]; intros acc; simpl.
  - by rewrite app_nil_r.
  - by rewrite IH, <- app_assoc.
Qed.

Lemma boundary_no_upper token i :
  Forall (fun c => isUpper c = false) token -> Shape.boundary token i = false.
Proof.
  intros H. unfold Shape.boundary.
  destruct (token !! i) as [ch|] eqn:E; [|done]. simpl.
  apply list_elem_of_lookup_2 in E. rewrite Forall_forall in H.
  by rewrite (H _ E).
Qed.

Lemma scanned_no_upper token k :
  Forall (fun c => isUpper c = false) token -> k < length token ->
  Shape.scanned token k = Scan [] (take (S k) token).
Proof.
  intros Hup. induction k as [|k IH]; intros Hk; [done|].
  destruct (lookup_lt_is_Some_2 token (S k) Hk) as [ch Hch].
  rewrite scanned_S, (splitStep_boundary _ _ _ ch Hch), boundary_no_upper by done.
  rewrite IH by lia. simpl. by rewrite (take_S_r _ (S k) ch).
Qed.

(** A word without uppercase letters is not split. *)
Lemma splitCamel_no_upper token :
  token <> [] -> Forall (fun c => isUpper c = false) token ->
  splitCamel token = [token].
Proof.
  intros Hne Hup. rewrite splitCamel_scanned by done.
  rewrite scanned_no_upper; [|done|destruct token; [done | simpl; lia]].
  simpl. rewrite take_ge; [done|]. destruct token; simpl; lia.
Qed.

Lemma tokens_join cls sep ps :
  cls sep = true ->
  Forall (fun p => p <> [] /\ Forall (fun c => cls c = false) p) ps ->
  Spec.tokens cls (join [sep] ps) = ps.
Proof.
  intros Hsep. induction 1 as [|p ps [Hne Hp] Hps IH]; [done|].
  destruct ps as [|q ps].
  - simpl. rewrite tokens_no_delim by done. by destruct p.
  - change (join [sep] (p :: q :: ps)) with (p ++ sep :: join [sep] (q :: ps)).
    rewrite tokens_app_delim, IH by done. by destruct p.
Qed.

Lemma join_head sep p ps : p <> [] -> head (join sep (p :: ps)) = head p.
Proof. by destruct p, ps. Qed.

Lemma join_last (P : N -> bool) sep ps :
  Forall (fun p => p <> [] /\ from_option P false (last p) = false) ps ->
  from_option P false (last (join sep ps)) = false.
Proof.
  induction 1 as [|p ps [Hne Hp] Hps IH]; [done|].
  destruct ps as [|q ps]; [done|].
  change (join sep (p :: q :: ps)) with (p ++ sep ++ join sep (q :: ps)).
  rewrite !last_app.
  destruct (last (join sep (q :: ps))) as [z|] eqn:E; [done|].
  apply last_None in E. apply Forall_cons in Hps as [[Hq _] _].
  destruct q, ps; done.
Qed.

(** [trim] leaves a string alone that neither begins nor ends with
    whitespace. *)
Lemma trim_fixed s :
  from_option isSpace false (head s) = false ->
  from_option isSpace false (last s) = false ->
  trim s = s.
Proof.
  intros Hh Hl. unfold trim, trimStart, trimEnd.
  assert (E : forall x, from_option isSpace false (head x) = false ->
                        dropWhile isSpace x = x).
  { intros [|c t]; [done|]. simpl. by intros ->. }
  rewrite (E s Hh), E by (by rewrite head_reverse).
  apply reverse_involutive.
Qed.

Section DotProofs.
Context {U : Unicode} {L : UnicodeLaws U}.

Lemma foldl_pushParts acc toks :
  foldl pushParts acc toks = acc ++ map toLowerCase (concat (map splitCamel toks)).
Proof.
  revert acc. induction toks as [|t toks IH]; intros acc; simpl.
  - by rewrite app_nil_r.
  - rewrite IH. unfold pushParts. by rewrite foldl_push, map_app, app_assoc.
Qed.

(** The whole of [toDotCase] on a string, in the words of the
    specification. *)
Lemma toDotCase_dotCase s : toDotCase (VString s) = Return (Spec.dotCase s).
Proof.
  unfold toDotCase, Spec.dotCase. cbv zeta. rewrite split_tokens.
  destruct (trim s) as [|c t]; [done|]. cbn [length Nat.eqb].
  destruct (Spec.tokens Dot.isDelim (c :: t)) as [|t0 toks]; [done|].
  cbn [length Nat.eqb]. by rewrite foldl_pushParts.
Qed.

(** C7.  [toDotCase] splits the trimmed input on runs of whitespace,
    hyphens, underscores and dots, drops the empty tokens, lowercases every
    part that [splitCamel] makes of the tokens and joins the parts with one
    dot each; so "foo--bar__baz" gives "foo.bar.baz", "user_123-id" gives
    "user.123.id" and "NASA API" gives "nasa.api". *)
Theorem toDotCase_tokens_joined :
  (forall s : jsstring,
     toDotCase (VString s) =
       Return (join [ch "."]
                 (map toLowerCase
                    (concat (map splitCamel (Spec.tokens Dot.isDelim (trim s))))))) /\
  toDotCase (VString (lit "foo--bar__baz")) = Return (lit "foo.bar.baz") /\
  toDotCase (VString (lit "user_123-id")) = Return (lit "user.123.id") /\
  toDotCase (VString (lit "NASA API")) = Return (lit "nasa.api").
Proof.
  split; [apply toDotCase_dotCase | repeat split; by rewrite toDotCase_ascii].
Qed.

(** ** toDotCase is idempotent *)

Lemma dotWord_toLowerCase p :
  p <> [] -> Forall (fun c => Dot.isDelim c = false) p ->
  Shape.dotWord (toLowerCase p).
Proof.
  intros Hne Hp. split; [by intros E%lower_nonempty|].
  split; [|split; [apply lower_no_upper | apply lower_idem]].
  apply Forall_forall. intros c Hc.
  destruct (Dot.isDelim c) eqn:E; [|done].
  rewrite Forall_forall in Hp. rewrite <- (Hp c); [done|].
  by apply (lower_delims p c).
Qed.

(** Every part joined by [toDotCase] is a non-empty word without delimiter
    or uppercase letter that lowercasing leaves alone. *)
Lemma dotCase_words s :
  Forall Shape.dotWord
    (map toLowerCase (concat (map splitCamel (Spec.tokens Dot.isDelim (trim s))))).
Proof.
  apply Forall_map, Forall_concat, Forall_map.
  eapply Forall_impl; [apply tokens_words|].
  intros t [Hne Ht]. simpl.
  destruct (splitCamel_partition t Hne) as (Hcat & Hparts & _).
  rewrite <- Hcat in Ht. apply Forall_concat in Ht.
  rewrite Forall_forall in Ht, Hparts. apply Forall_forall.
  intros p Hp. apply dotWord_toLowerCase; auto.
Qed.

Lemma dotWords_unsplit ps :
  Forall Shape.dotWord ps -> concat (map splitCamel ps) = ps.
Proof.
  induction 1 as [|p ps (Hne & _ & Hup & _) _ IH]; [done|]. simpl.
  rewrite splitCamel_no_upper by done. simpl. by rewrite IH.
Qed.

Lemma dotWords_lower ps :
  Forall Shape.dotWord ps -> map toLowerCase ps = ps.
Proof.
  induction 1 as [|p ps (_ & _ & _ & Hlow) _ IH]; [done|]. simpl.
  by rewrite Hlow, IH.
Qed.

Lemma dotWords_trim sep ps :
  Forall Shape.dotWord ps -> trim (join sep ps) = join sep ps.
Proof.
  intros H. apply trim_fixed.
  - destruct H as [|p ps (Hne & Hd & _) _]; [done|].
    rewrite join_head by done. destruct Hd as [|c p Hc _]; [done|].
    simpl. by apply not_delim_not_space.
  - apply join_last. eapply Forall_impl; [exact H|].
    intros p (Hne & Hd & _). split; [done|].
    destruct (last p) as [z|] eqn:E; [|done]. simpl.
    apply last_Some_elem_of in E. rewrite Forall_forall in Hd.
    by apply not_delim_not_space, Hd.
Qed.

Lemma dotWords_tokens sep ps :
  Dot.isDelim sep = true -> Forall Shape.dotWord ps ->
  Spec.tokens Dot.isDelim (join [sep] ps) = ps.
Proof.
  intros Hsep H. apply tokens_join; [done|].
  eapply Forall_impl; [exact H|]. by intros p (? & ? & _).
Qed.

(** Words joined by one delimiter each are converted to the same words
    joined by dots; a dot.case output is a fixed point of the conversion. *)
Lemma words_dotCase sep ps :
  Dot.isDelim sep = true -> Forall Shape.dotWord ps ->
  Spec.dotCase (join [sep] ps) = join [ch "."] ps.
Proof.
  intros Hsep H. unfold Spec.dotCase.
  by rewrite dotWords_trim, dotWords_tokens, dotWords_unsplit, dotWords_lower.
Qed.

(** C10.  [toDotCase] is idempotent: its result is made of non-empty
    lowercase words without delimiters joined by single dots, and converting
    it again tokenizes it into the same words, splits none of them and
    returns it unchanged, for every string. *)
Theorem toDotCase_idempotent (s : jsstring) :
  exists (d : jsstring) (words : list jsstring),
    toDotCase (VString s) = Return d /\
    d = join [ch "."] words /\ Forall Shape.dotWord words /\
    Spec.tokens Dot.isDelim (trim d) = words /\
    concat (map splitCamel words) = words /\
    toDotCase (VString d) = Return d.
Proof.
  pose proof (dotCase_words s) as Hw.
  set (words := map toLowerCase
                  (concat (map splitCamel (Spec.tokens Dot.isDelim (trim s))))) in *.
  exists (join [ch "."] words), words.
  split; [apply toDotCase_dotCase|]. split; [done|]. split; [done|].
  split; [|split].
  - rewrite dotWords_trim by done. by apply dotWords_tokens.
  - by apply dotWords_unsplit.
  - rewrite toDotCase_dotCase. f_equal. by apply words_dotCase.
Qed.

End DotProofs.

Lemma toDotCase_tokens_joined_witness :
  @toDotCase asciiCase (VString (lit " getHTTPResponse_code ")) =
    Return (lit "get.http.response.code").
Proof.
  rewrite (proj1 (@toDotCase_tokens_joined asciiCase asciiLaws)). reflexivity.
Defined.

Lemma toDotCase_idempotent_witness :
  exists (d : jsstring) (words : list jsstring),
    @toDotCase asciiCase (VString (lit "XMLHttpRequest v2")) = Return d /\
    d = join [ch "."] words /\ Forall (@Shape.dotWord asciiCase) words /\
    Spec.tokens Dot.isDelim (trim d) = words /\
    concat (map splitCamel words) = words /\
    @toDotCase asciiCase (VString d) = Return d.
Proof. apply (@toDotCase_idempotent asciiCase asciiLaws). Defined.

(** ** toKebabCase as a tokenizer *)

Lemma join_cons_cons (sep : jsstring) c w rest :
  join sep ((c :: w) :: rest) = c :: join sep (w :: rest).
Proof. by destruct rest. Qed.

Lemma join_cons2 (sep : jsstring) p q rest :
  join sep (p :: q :: rest) = p ++ sep ++ join sep (q :: rest).
Proof. done. Qed.

Lemma join_Forall (P : N -> Prop) sep ws :
  P sep -> Forall (Forall P) ws -> Forall P (join [sep] ws).
Proof.
  intros Hsep. induction 1 as [|w ws Hw Hws IH]; [constructor|].
  destruct ws as [|v ws]; [done|].
  change (join [sep] (w :: v :: ws)) with (w ++ sep :: join [sep] (v :: ws)).
  apply Forall_app. split; [done|]. by constructor.
Qed.

Lemma tokens_ext cls cls' s :
  Forall (fun c => cls c = cls' c) s -> Spec.tokens cls s = Spec.tokens cls' s.
Proof.
  intros H. unfold Spec.tokens. f_equal. f_equal.
  induction H as [|c t Hc _ IH]; [done|].
  by rewrite !runs_cons, IH, Hc.
Qed.

Lemma kebab_dot_tokens s : Spec.tokens Kebab.isDelim s = Spec.tokens Dot.isDelim s.
Proof. apply tokens_ext, Forall_true. intros; apply kebab_dot_isDelim. Qed.

(** At the start of the string or after a word, the second replacement
    writes one hyphen more than after a delimiter, and only when a
    delimiter comes first. *)
Lemma collapseFrom_false y :
  exists P, (P = [] \/ P = [ch "-"]) /\ collapseFrom false y = P ++ collapseFrom true y.
Proof.
  destruct y as [|c t]; [by exists []; auto|]. simpl.
  destruct (Kebab.isDelim c); [exists [ch "-"] | exists []]; auto.
Qed.

(** After a delimiter the second replacement leaves the tokens joined by
    single hyphens, followed by one more hyphen when the string has a token
    and ends with a delimiter. *)
Lemma collapseFrom_true_words y :
  exists T, (T = [] \/ T = [ch "-"] /\ Spec.tokens Kebab.isDelim y <> []) /\
    collapseFrom true y = join [ch "-"] (Spec.tokens Kebab.isDelim y) ++ T.
Proof.
  induction y as [|c t (T & HT & E)]; [by exists []; auto|].
  cbn [collapseFrom]. destruct (Kebab.isDelim c) eqn:Hc.
  { rewrite tokens_cons_delim by done. by exists T. }
  destruct t as [|d t]; [exists []; rewrite tokens_cons_end by done; auto|].
  cbn [collapseFrom] in *. destruct (Kebab.isDelim d) eqn:Hd.
  - rewrite tokens_cons_end by (simpl; done). rewrite E.
    destruct (Spec.tokens Kebab.isDelim (d :: t)) as [|w ws].
    + exists [ch "-"]. destruct HT as [->|[_ ?]]; [|done]. split; [|done].
      right. done.
    + exists T. split; [|done]. destruct HT as [->|[-> _]]; [by left | by right].
  - destruct (tokens_cons_more Kebab.isDelim c d t Hc Hd) as (r & rest & E1 & E2).
    rewrite E2. rewrite E1 in E, HT. exists T. split.
    + destruct HT as [->|[-> _]]; [by left | by right].
    + by rewrite join_cons_cons, <- app_comm_cons, <- E.
Qed.

Lemma dropWhile_fixed (p : N -> bool) s :
  from_option p false (head s) = false -> dropWhile p s = s.
Proof. destruct s as [|c t]; [done|]. simpl. by intros ->. Qed.

(** The last replacement on hyphen-free words joined by hyphens, with a
    hyphen too many on either side. *)
Lemma stripHyphens_words P ws T :
  (P = [] \/ P = [ch "-"]) -> (T = [] \/ T = [ch "-"] /\ ws <> []) ->
  Forall (fun w => w <> [] /\ Forall (fun c => isHyphen c = false) w) ws ->
  stripHyphens (P ++ join [ch "-"] ws ++ T) = join [ch "-"] ws.
Proof.
  intros HP HT Hws. rewrite stripHyphens_strip. unfold Spec.strip.
  assert (Hlast : from_option isHyphen false (last (join [ch "-"] ws)) = false).
  { apply join_last. eapply Forall_impl; [exact Hws|]. intros w [Hne Hw].
    split; [done|]. destruct (last w) as [z|] eqn:E; [|done]. simpl.
    apply last_Some_elem_of in E. rewrite Forall_forall in Hw. by apply Hw. }
  assert (HPh : forallb isHyphen P = true) by by destruct HP as [->| ->].
  assert (HTh : forallb isHyphen (reverse T) = true)
    by by destruct HT as [->|[-> _]].
  destruct ws as [|w ws].
  { destruct HT as [->|[_ ?]]; [|done]. by destruct HP as [->| ->]. }
  assert (Hhead : from_option isHyphen false (head (join [ch "-"] (w :: ws))) = false).
  { apply Forall_cons in Hws as [[Hne Hw] _]. rewrite join_head by done.
    destruct Hw as [|c w Hc _]; done. }
  assert (HJ : join [ch "-"] (w :: ws) <> []).
  { apply Forall_cons in Hws as [[Hne _] _]. destruct w; [done|].
    by rewrite join_cons_cons. }
  set (J := join [ch "-"] (w :: ws)) in *.
  rewrite dropWhile_app, HPh, (dropWhile_fixed _ (J ++ T))
    by (by destruct J).
  rewrite reverse_app, dropWhile_app, HTh, dropWhile_fixed
    by (by rewrite head_reverse).
  apply reverse_involutive.
Qed.

Section KebabProofs.
Context {U : Unicode} {L : UnicodeLaws U}.

(** Lowercasing goes through the hyphens of a joined list. *)
Lemma toLowerCase_join ws :
  toLowerCase (join [ch "-"] ws) = join [ch "-"] (map toLowerCase ws).
Proof.
  induction ws as [|p [|q rest] IH]; [apply lower_nil | done |].
  rewrite join_cons2. cbn [map]. rewrite join_cons2. cbn [app].
  by rewrite lower_hyphen, IH.
Qed.

Lemma toLowerCase_hyphen_l s : toLowerCase (ch "-" :: s) = ch "-" :: toLowerCase s.
Proof. by rewrite (lower_hyphen [] s), lower_nil. Qed.

Lemma toLowerCase_hyphen_r s : toLowerCase (s ++ [ch "-"]) = toLowerCase s ++ [ch "-"].
Proof. by rewrite (lower_hyphen s []), lower_nil. Qed.

Lemma kebab_words_shape x :
  Forall Shape.dotWord (map toLowerCase (Spec.tokens Kebab.isDelim x)).
Proof.
  rewrite kebab_dot_tokens. apply Forall_map.
  eapply Forall_impl; [apply tokens_words|].
  intros t [Hne Ht]. by apply dotWord_toLowerCase.
Qed.

Lemma dotWords_no_hyphen ws :
  Forall Shape.dotWord ws ->
  Forall (fun w => w <> [] /\ Forall (fun c => isHyphen c = false) w) ws.
Proof.
  intros H. eapply Forall_impl; [exact H|]. intros w (Hne & Hd & _).
  split; [done|]. eapply Forall_impl; [exact Hd|]. intros c Hc. simpl in Hc.
  apply kebab_delim_not_hyphen. by rewrite kebab_dot_isDelim.
Qed.

(** The four replacements amount to: cut at the camelCase boundaries, take
    the delimiter-free runs, lowercase them and join them with hyphens. *)
Lemma toKebabCase_words s :
  toKebabCase (VString s) =
    Return (join [ch "-"] (map toLowerCase
                             (Spec.tokens Kebab.isDelim (hyphenateCamel s)))).
Proof.
  unfold toKebabCase, collapseDelims. f_equal.
  set (x := hyphenateCamel s).
  destruct (collapseFrom_false x) as (P & HP & ->).
  destruct (collapseFrom_true_words x) as (T & HT & ->).
  set (ws := Spec.tokens Kebab.isDelim x) in *.
  assert (E : toLowerCase (P ++ join [ch "-"] ws ++ T)
              = P ++ join [ch "-"] (map toLowerCase ws) ++ T).
  { assert (toLowerCase (join [ch "-"] ws ++ T)
            = join [ch "-"] (map toLowerCase ws) ++ T) as E.
    { destruct HT as [->|[-> _]].
      - by rewrite !app_nil_r, toLowerCase_join.
      - by rewrite toLowerCase_hyphen_r, toLowerCase_join. }
    destruct HP as [->| ->]; [done|].
    cbn [app]. by rewrite toLowerCase_hyphen_l, E. }
  rewrite E. apply stripHyphens_words; [done| |].
  - destruct HT as [->|[-> Hne]]; [by left | right]. split; [done|].
    by destruct ws.
  - apply dotWords_no_hyphen, kebab_words_shape.
Qed.

(** ** Words joined by any delimiter *)

Lemma insertHyphens_fixed s :
  Forall (fun c => isUpper c = false) s -> Spec.insertHyphens s = s.
Proof.
  induction 1 as [|c t Hc Ht IH]; [done|]. simpl.
  destruct t as [|d t]; [done|]. apply Forall_cons in Ht as [Hd _].
  by rewrite Hd, andb_false_r, IH.
Qed.

Lemma words_no_upper sep ws :
  Dot.isDelim sep = true -> Forall Shape.dotWord ws ->
  Forall (fun c => isUpper c = false) (join [sep] ws).
Proof.
  intros Hsep Hws. apply join_Forall; [by apply delim_not_upper|].
  eapply Forall_impl; [exact Hws|]. by intros w (_ & _ & ? & _).
Qed.

Lemma words_kebab sep ws :
  Dot.isDelim sep = true -> Forall Shape.dotWord ws ->
  toKebabCase (VString (join [sep] ws)) = Return (join [ch "-"] ws).
Proof.
  intros Hsep Hws.
  rewrite toKebabCase_words, hyphenateCamel_insertHyphens.
  rewrite insertHyphens_fixed by by apply words_no_upper.
  by rewrite kebab_dot_tokens, dotWords_tokens, dotWords_lower.
Qed.

Lemma words_dot sep ws :
  Dot.isDelim sep = true -> Forall Shape.dotWord ws ->
  toDotCase (VString (join [sep] ws)) = Return (join [ch "."] ws).
Proof. intros Hsep Hws. by rewrite toDotCase_dotCase, words_dotCase. Qed.

(** ** toKebabCase is idempotent *)

(** C4.  [toKebabCase] is idempotent: converting the result of a
    conversion again returns it unchanged, for every string. *)
Theorem toKebabCase_idempotent (s : jsstring) :
  exists k : jsstring,
    toKebabCase (VString s) = Return k /\
    toKebabCase (VString k) = Return k.
Proof.
  eexists. split; [apply toKebabCase_words|].
  apply words_kebab; [done | apply kebab_words_shape].
Qed.

End KebabProofs.

Lemma toKebabCase_idempotent_witness :
  exists k : jsstring,
    @toKebabCase asciiCase (VString (lit "__HelloWorld--fooBar. ")) = Return k /\
    @toKebabCase asciiCase (VString k) = Return k.
Proof. apply (@toKebabCase_idempotent asciiCase asciiLaws). Defined.

(** * Further properties of the converters *)

(** ** Words and separators *)

Lemma existsb_no_upper w :
  Forall (fun c => isUpper c = false) w -> existsb isUpper w = false.
Proof. induction 1 as [|c t Hc _ IH]; [done|]. simpl. by rewrite Hc. Qed.

Lemma word_no_camel_delim {U : Unicode} w :
  Shape.dotWord w -> testClass Camel.isDelim w = false.
Proof.
  intros (_ & Hd & _). unfold testClass.
  induction Hd as [|c t Hc _ IH]; [done|]. simpl. rewrite IH, orb_false_r.
  destruct (Camel.isDelim c) eqn:E; [|done].
  apply camel_dot_isDelim in E. congruence.
Qed.

Section WordProofs.
Context {U : Unicode} {L : UnicodeLaws U}.

(** X1.  [toKebabCase] is a tokenizer followed by a reassembler, like the
    other two converters: its result is the list of delimiter-free runs of
    the input cut at its camelCase boundaries, each lowercased, joined by
    single hyphens.  [split] followed by [filter(Boolean)] computes the same
    runs, and each of the lowercased runs is a non-empty word without
    delimiter and without uppercase letter that lowercasing leaves alone. *)
Theorem toKebabCase_tokenizer (s : jsstring) :
  let words :=
    map toLowerCase
      (filter (fun t => truthy t = true) (split Kebab.isDelim (hyphenateCamel s))) in
  toKebabCase (VString s) = Return (join [ch "-"] words) /\
  Forall Shape.dotWord words.
Proof.
  cbv zeta. rewrite split_tokens. split; [apply toKebabCase_words|].
  apply kebab_words_shape.
Qed.

(** X2.  Lowercase words joined by any one delimiter character (a
    whitespace character, a hyphen, an underscore or a dot) are converted
    by swapping the separator: [toKebabCase] returns the same words joined
    by hyphens and [toDotCase] the same words joined by dots.  A word is a
    non-empty string without delimiter and without uppercase letter that
    lowercasing leaves alone. *)
Theorem words_separator_swapped (sep : N) (ws : list jsstring) :
  Dot.isDelim sep = true -> Forall Shape.dotWord ws ->
  toKebabCase (VString (join [sep] ws)) = Return (join [ch "-"] ws) /\
  toDotCase (VString (join [sep] ws)) = Return (join [ch "."] ws).
Proof. intros Hsep Hws. split; [by apply words_kebab | by apply words_dot]. Qed.

(** X3.  Round trips between kebab-case and dot.case.  The kebab-case
    form of any string, converted to dot.case and back, is itself again;
    and so is the dot.case form of any string converted to kebab-case and
    back.  Both intermediate results hold the same words, only the
    separator differs. *)
Theorem kebab_dot_round_trip (s : jsstring) :
  (exists ws : list jsstring,
     toKebabCase (VString s) = Return (join [ch "-"] ws) /\
     toDotCase (VString (join [ch "-"] ws)) = Return (join [ch "."] ws) /\
     toKebabCase (VString (join [ch "."] ws)) = Return (join [ch "-"] ws)) /\
  (exists ws : list jsstring,
     toDotCase (VString s) = Return (join [ch "."] ws) /\
     toKebabCase (VString (join [ch "."] ws)) = Return (join [ch "-"] ws) /\
     toDotCase (VString (join [ch "-"] ws)) = Return (join [ch "."] ws)).
Proof.
  split.
  - eexists. split; [apply toKebabCase_words|].
    pose proof (kebab_words_shape (hyphenateCamel s)) as Hw.
    split; [by apply words_dot | by apply words_kebab].
  - eexists. split; [apply toDotCase_dotCase|].
    pose proof (dotCase_words s) as Hw.
    split; [by apply words_kebab | by apply words_dot].
Qed.

(** ** toCamelCase on lowercase words *)

Lemma words_camelWords sep w v rest :
  Camel.isDelim sep = true -> Forall Shape.dotWord (w :: v :: rest) ->
  toCamelCase (VString (join [sep] (w :: v :: rest))) =
    Return (w ++ concat (map Spec.capitalized (v :: rest))).
Proof.
  intros Hsep Hws.
  rewrite toCamelCase_words; rewrite dotWords_trim by done.
  - rewrite tokens_join; [| done |].
    + unfold Spec.camelWords. apply Forall_cons in Hws as [(_ & _ & _ & Hlow) _].
      by rewrite Hlow.
    + eapply Forall_impl; [exact Hws|]. intros p Hp. split; [by destruct Hp|].
      by apply testClass_Forall, word_no_camel_delim.
  - rewrite join_cons2. unfold testClass. rewrite existsb_app. simpl.
    by rewrite Hsep, orb_true_r.
Qed.

Lemma word_camelSingle w :
  Shape.dotWord w -> forallb isAscii w = true ->
  toCamelCase (VString w) = Return w.
Proof.
  intros Hw Ha. pose proof Hw as (Hne & Hd & Hup & Hlow).
  assert (Ht : trim w = w) by (apply (dotWords_trim [] [w]); by constructor).
  rewrite toCamelCase_single; rewrite Ht.
  - unfold Spec.camelSingle, Spec.alreadyCamel.
    rewrite existsb_no_upper, andb_false_r by done.
    destruct (Spec.ownUppercase w); [by rewrite Hlow|].
    destruct w as [|c t]; [done|]. unfold Spec.lowerFirst.
    simpl in Ha. apply andb_prop in Ha as [Hc _].
    apply Forall_cons in Hup as [Hu _].
    rewrite lower_ascii by (simpl; by rewrite Hc).
    simpl. by rewrite lowerChar_fixed.
  - done.
  - by apply word_no_camel_delim.
Qed.

(** X4.  Two or more lowercase words joined by one camelCase delimiter (a
    whitespace character, a hyphen or an underscore) are converted by
    [toCamelCase] into the first word followed by the other words with
    their first character uppercased; one word alone, of the ASCII range,
    is returned as it is. *)
Theorem words_camel (sep : N) (w : jsstring) (rest : list jsstring) :
  Camel.isDelim sep = true -> Forall Shape.dotWord (w :: rest) ->
  rest <> [] \/ forallb isAscii w = true ->
  toCamelCase (VString (join [sep] (w :: rest))) =
    Return (w ++ concat (map Spec.capitalized rest)).
Proof.
  intros Hsep Hws Hcase. destruct rest as [|v rest].
  - destruct Hcase as [?|Ha]; [done|]. apply Forall_cons in Hws as [Hw _].
    simpl. rewrite app_nil_r. by apply word_camelSingle.
  - by apply words_camelWords.
Qed.

End WordProofs.

Ltac dotWords := repeat constructor; discriminate.

Lemma toKebabCase_tokenizer_witness :
  @toKebabCase asciiCase (VString (lit " getHTTPResponse_code.v2 "))
    = Return (lit "get-httpresponse-code-v2").
Proof.
  rewrite (proj1 (@toKebabCase_tokenizer asciiCase asciiLaws _)). reflexivity.
Defined.

Lemma words_separator_swapped_witness :
  @toKebabCase asciiCase (VString (lit "user_123_id")) = Return (lit "user-123-id") /\
  @toDotCase asciiCase (VString (lit "user_123_id")) = Return (lit "user.123.id").
Proof.
  apply (@words_separator_swapped asciiCase asciiLaws (ch "_")
           [lit "user"; lit "123"; lit "id"]).
  - reflexivity.
  - dotWords.
Defined.

Lemma kebab_dot_round_trip_witness :
  exists ws : list jsstring,
    @toKebabCase asciiCase (VString (lit "fooBar baz")) = Return (join [ch "-"] ws) /\
    @toDotCase asciiCase (VString (join [ch "-"] ws)) = Return (join [ch "."] ws) /\
    @toKebabCase asciiCase (VString (join [ch "."] ws)) = Return (join [ch "-"] ws).
Proof. apply (proj1 (@kebab_dot_round_trip asciiCase asciiLaws (lit "fooBar baz"))). Defined.

Lemma words_camel_witness :
  @toCamelCase asciiCase (VString (lit "make_this_camel_case"))
    = Return (lit "makeThisCamelCase").
Proof.
  apply (@words_camel asciiCase asciiLaws (ch "_") (lit "make")
           [lit "this"; lit "camel"; lit "case"]).
  - reflexivity.
  - dotWords.
  - by left.
Defined.

(** ** Delimiters and whitespace around the input *)

Lemma tokens_app_delims_l cls a x :
  forallb cls a = true -> Spec.tokens cls (a ++ x) = Spec.tokens cls x.
Proof.
  induction a as [|c a IH]; [done|]. simpl. intros H.
  apply andb_prop in H as [Hc Ha]. by rewrite tokens_cons_delim, IH.
Qed.

Lemma tokens_app_delims_r cls x b :
  forallb cls b = true -> Spec.tokens cls (x ++ b) = Spec.tokens cls x.
Proof.
  revert x. induction b as [|c b IH]; intros x; [by rewrite app_nil_r|].
  simpl. intros H. apply andb_prop in H as [Hc Hb].
  by rewrite (cons_middle c x b), app_assoc, IH, tokens_snoc_delim.
Qed.

Lemma insertHyphens_app_l a x :
  forallb (fun c => negb (isLower c)) a = true ->
  Spec.insertHyphens (a ++ x) = a ++ Spec.insertHyphens x.
Proof.
  induction a as [|c a IH]; [done|]. simpl app. intros H. simpl in H.
  apply andb_prop in H as [Hc Ha]. apply negb_true_iff in Hc.
  by rewrite insertHyphens_cons_not_lower, IH.
Qed.

Lemma insertHyphens_cons2 c d t :
  Spec.insertHyphens (c :: d :: t) =
    if isLower c && isUpper d then c :: ch "-" :: Spec.insertHyphens (d :: t)
    else c :: Spec.insertHyphens (d :: t).
Proof. done. Qed.

Lemma insertHyphens_app_r x b :
  Forall (fun c => isUpper c = false) b ->
  Spec.insertHyphens (x ++ b) = Spec.insertHyphens x ++ b.
Proof.
  intros Hb. induction x as [|c t IH]; [by apply insertHyphens_fixed|].
  destruct t as [|d t].
  - destruct Hb as [|e b He Hb]; [done|].
    change ([c] ++ e :: b) with (c :: e :: b).
    rewrite insertHyphens_cons2, He, andb_false_r.
    by rewrite (insertHyphens_fixed (e :: b)) by by constructor.
  - change ((c :: d :: t) ++ b) with (c :: d :: (t ++ b)).
    rewrite !insertHyphens_cons2.
    change (d :: (t ++ b)) with ((d :: t) ++ b).
    rewrite IH. by destruct (isLower c && isUpper d).
Qed.

Lemma delims_no_letters a :
  forallb Dot.isDelim a = true ->
  forallb (fun c => negb (isLower c)) a = true /\
  Forall (fun c => isUpper c = false) a.
Proof.
  induction a as [|c a IH]; [by split|]. simpl. intros H.
  apply andb_prop in H as [Hc Ha]. destruct (IH Ha) as [IH1 IH2].
  rewrite (delim_not_lower c Hc), IH1. split; [done|].
  constructor; [by apply delim_not_upper | done].
Qed.

Lemma forallb_kebab_dot a : forallb Kebab.isDelim a = forallb Dot.isDelim a.
Proof. induction a as [|c a IH]; [done|]. simpl. by rewrite kebab_dot_isDelim, IH. Qed.

Lemma dropWhile_split p s :
  exists l, s = l ++ dropWhile p s /\ forallb p l = true.
Proof.
  induction s as [|c t (l & Hl & Hp)]; [by exists []|]. simpl.
  destruct (p c) eqn:Hc.
  - exists (c :: l). simpl. rewrite Hc, Hp. split; [by f_equal | done].
  - by exists [].
Qed.

Lemma dropWhile_forallb p s : forallb p s = true -> dropWhile p s = [].
Proof.
  induction s as [|c t IH]; [done|]. simpl.
  destruct (p c); [apply IH | done].
Qed.

(** A string is its trimmed form between two stretches of whitespace. *)
Lemma trim_split s :
  exists a b, s = a ++ trim s ++ b /\
              forallb isSpace a = true /\ forallb isSpace b = true.
Proof.
  destruct (dropWhile_split isSpace s) as (a & Ha & Hpa).
  destruct (dropWhile_split isSpace (reverse (trimStart s))) as (b & Hb & Hpb).
  exists a, (reverse b). split; [|split; [done | by rewrite forallb_reverse]].
  unfold trim, trimEnd. rewrite <- reverse_app, <- Hb, reverse_involutive.
  exact Ha.
Qed.

Lemma trim_padded a s b :
  forallb isSpace a = true -> forallb isSpace b = true ->
  trim (a ++ s ++ b) = trim s.
Proof.
  intros Ha Hb. unfold trim, trimStart, trimEnd.
  rewrite dropWhile_app, Ha, dropWhile_app.
  destruct (forallb isSpace s) eqn:Hs.
  - by rewrite (dropWhile_forallb _ b), (dropWhile_forallb _ s).
  - rewrite reverse_app, dropWhile_app, forallb_reverse, Hb. done.
Qed.

Lemma spaces_delims a : forallb isSpace a = true -> forallb Dot.isDelim a = true.
Proof.
  induction a as [|c a IH]; [done|]. simpl. intros H.
  apply andb_prop in H as [Hc Ha]. by rewrite dot_isDelim_space, IH.
Qed.

Section PaddingProofs.
Context {U : Unicode} {L : UnicodeLaws U}.

Lemma toKebabCase_padded a s b :
  forallb Dot.isDelim a = true -> forallb Dot.isDelim b = true ->
  toKebabCase (VString (a ++ s ++ b)) = toKebabCase (VString s).
Proof.
  intros Ha Hb.
  rewrite !toKebabCase_words, !hyphenateCamel_insertHyphens.
  destruct (delims_no_letters a Ha) as [Hla _].
  destruct (delims_no_letters b Hb) as [_ Hub].
  rewrite insertHyphens_app_l, insertHyphens_app_r by done.
  by rewrite tokens_app_delims_l, tokens_app_delims_r
    by by rewrite forallb_kebab_dot.
Qed.

Lemma toDotCase_padded a s b :
  forallb Dot.isDelim a = true -> forallb Dot.isDelim b = true ->
  toDotCase (VString (a ++ s ++ b)) = toDotCase (VString s).
Proof.
  intros Ha Hb. rewrite !toDotCase_dotCase. unfold Spec.dotCase.
  rewrite !tokens_trim by apply dot_isDelim_space.
  by rewrite tokens_app_delims_l, tokens_app_delims_r.
Qed.

(** X5.  Delimiters before and after the input (whitespace, hyphens,
    underscores, dots, in any number and mix) change nothing in the result
    of [toKebabCase] and of [toDotCase]. *)
Theorem surrounding_delimiters_ignored (a s b : jsstring) :
  forallb Dot.isDelim a = true -> forallb Dot.isDelim b = true ->
  toKebabCase (VString (a ++ s ++ b)) = toKebabCase (VString s) /\
  toDotCase (VString (a ++ s ++ b)) = toDotCase (VString s).
Proof.
  intros Ha Hb. split; [by apply toKebabCase_padded | by apply toDotCase_padded].
Qed.

(** X6.  [toKebabCase] does not trim its input, and would return the same
    result if it did: converting the trimmed string and converting the
    string itself give the same result. *)
Theorem toKebabCase_trim (s : jsstring) :
  toKebabCase (VString (trim s)) = toKebabCase (VString s).
Proof.
  destruct (trim_split s) as (a & b & E & Ha & Hb).
  rewrite E at 2. symmetry. by apply toKebabCase_padded; apply spaces_delims.
Qed.

End PaddingProofs.

(** X7.  Whitespace before and after the input changes nothing in the
    result of [toCamelCase]. *)
Theorem toCamelCase_surrounding_whitespace {U : Unicode} (a s b : jsstring) :
  forallb isSpace a = true -> forallb isSpace b = true ->
  toCamelCase (VString (a ++ s ++ b)) = toCamelCase (VString s).
Proof. intros Ha Hb. unfold toCamelCase. by rewrite trim_padded. Qed.

Lemma surrounding_delimiters_ignored_witness :
  @toKebabCase asciiCase (VString (lit "-_ " ++ lit "helloWorld" ++ lit ".. "))
    = @toKebabCase asciiCase (VString (lit "helloWorld")) /\
  @toDotCase asciiCase (VString (lit "-_ " ++ lit "helloWorld" ++ lit ".. "))
    = @toDotCase asciiCase (VString (lit "helloWorld")).
Proof.
  apply (@surrounding_delimiters_ignored asciiCase asciiLaws
           (lit "-_ ") (lit "helloWorld") (lit ".. ")); reflexivity.
Defined.

Lemma toKebabCase_trim_witness :
  @toKebabCase asciiCase (VString (trim (lit "  helloWorld ")))
    = @toKebabCase asciiCase (VString (lit "  helloWorld ")).
Proof. apply (@toKebabCase_trim asciiCase asciiLaws). Defined.

Lemma toCamelCase_surrounding_whitespace_witness :
  @toCamelCase asciiCase (VString ([0xA0; 0x2003]%N ++ lit "FOOBar" ++ [0xFEFF]%N))
    = @toCamelCase asciiCase (VString (lit "FOOBar")).
Proof.
  apply (@toCamelCase_surrounding_whitespace asciiCase
           [0xA0; 0x2003]%N (lit "FOOBar") [0xFEFF]%N); reflexivity.
Defined.

(** ** What toCamelCase returns *)

Lemma head_Forall (P : N -> bool) l :
  Forall (fun c => P c = false) l -> from_option P false (head l) = false.
Proof. by intros [|c t Hc _]. Qed.

Lemma no_camel_delim_trim r :
  Forall (fun c => Camel.isDelim c = false) r -> trim r = r.
Proof.
  intros H.
  assert (Hs : forall c, c ∈ r -> isSpace c = false).
  { intros c Hc. rewrite Forall_forall in H. specialize (H c Hc).
    unfold Camel.isDelim in H. by destruct (isSpace c). }
  apply trim_fixed.
  - destruct r as [|c t]; [done|]. simpl. apply Hs. by left.
  - destruct (last r) as [z|] eqn:E; [|done]. simpl.
    by apply Hs, last_Some_elem_of.
Qed.

Lemma alreadyCamel_has_lowercase r :
  Spec.alreadyCamel r = true -> Spec.noLowercase r = false.
Proof.
  unfold Spec.alreadyCamel. destruct r as [|c t]; [done|]. simpl.
  by destruct (isLower c).
Qed.

Section CamelShape.
Context {U : Unicode} {L : UnicodeLaws U}.

(** The case maps neither make nor remove a delimiter. *)
Lemma toLowerCase_no_delim cls t :
  (forall c, cls c = true -> Dot.isDelim c = true) ->
  Forall (fun c => cls c = false) t ->
  Forall (fun c => cls c = false) (toLowerCase t).
Proof.
  intros Hcls H. apply Forall_forall. intros c Hc.
  destruct (cls c) eqn:E; [|done]. rewrite Forall_forall in H.
  rewrite <- (H c); [done|]. apply (lower_delims t c); [|done].
  by apply Hcls.
Qed.

Lemma toUpperCase_no_delim cls t :
  (forall c, cls c = true -> Dot.isDelim c = true) ->
  Forall (fun c => cls c = false) t ->
  Forall (fun c => cls c = false) (toUpperCase t).
Proof.
  intros Hcls H. apply Forall_forall. intros c Hc.
  destruct (cls c) eqn:E; [|done]. rewrite Forall_forall in H.
  rewrite <- (H c); [done|]. apply (upper_delims t c); [|done].
  by apply Hcls.
Qed.

Lemma capitalized_no_camel_delim t :
  Forall (fun c => Camel.isDelim c = false) t ->
  Forall (fun c => Camel.isDelim c = false) (Spec.capitalized t).
Proof.
  intros [|c r Hc Hr]; [constructor|]. unfold Spec.capitalized.
  apply Forall_app. split.
  - apply toUpperCase_no_delim; [apply camel_dot_isDelim | by constructor].
  - by apply toLowerCase_no_delim; [apply camel_dot_isDelim|].
Qed.

Lemma camelSingle_no_delim t :
  Forall (fun c => Camel.isDelim c = false) t ->
  Forall (fun c => Camel.isDelim c = false) (Spec.camelSingle t).
Proof.
  intros H. unfold Spec.camelSingle. repeat case_match; [done| |].
  - by apply toLowerCase_no_delim; [apply camel_dot_isDelim|].
  - destruct H as [|c r Hc Hr]; [constructor|]. unfold Spec.lowerFirst.
    apply Forall_app. split; [|done].
    apply toLowerCase_no_delim; [apply camel_dot_isDelim | by constructor].
Qed.

Lemma camelWords_no_delim toks :
  Forall (fun t => t <> [] /\ Forall (fun c => Camel.isDelim c = false) t) toks ->
  Forall (fun c => Camel.isDelim c = false) (Spec.camelWords toks).
Proof.
  intros [|t rest [_ Ht] Hrest]; [constructor|]. simpl.
  apply Forall_app. split.
  { by apply toLowerCase_no_delim; [apply camel_dot_isDelim|]. }
  apply Forall_concat, Forall_map. eapply Forall_impl; [exact Hrest|].
  intros p [_ Hp]. by apply capitalized_no_camel_delim.
Qed.

Lemma toLowerCase_head t :
  from_option isUpper false (head (toLowerCase t)) = false.
Proof. apply head_Forall, lower_no_upper. Qed.

Lemma toLowerCase_app_head c t :
  from_option isUpper false (head (toLowerCase [c] ++ t)) = false.
Proof.
  destruct (toLowerCase [c]) as [|d r] eqn:E; [by apply lower_nonempty in E|].
  pose proof (lower_no_upper [c]) as H. rewrite E in H.
  by apply Forall_cons in H as [H _].
Qed.

Lemma lowerFirst_head t :
  from_option isUpper false (head (Spec.lowerFirst t)) = false.
Proof. destruct t as [|c r]; [done | apply toLowerCase_app_head]. Qed.

Lemma camelSingle_head t :
  from_option isUpper false (head (Spec.camelSingle t)) = false.
Proof.
  unfold Spec.camelSingle, Spec.alreadyCamel.
  destruct (from_option isLower false (head t)) eqn:Hh.
  - repeat case_match; try apply toLowerCase_head; try apply lowerFirst_head.
    destruct t as [|c r]; [done|]. by apply lower_not_upper.
  - cbn [andb]. repeat case_match; [apply toLowerCase_head | apply lowerFirst_head].
Qed.

Lemma toCamelCase_output_shape_aux s :
  exists r : jsstring,
    toCamelCase (VString s) = Return r /\
    Forall (fun c => Camel.isDelim c = false) r /\
    from_option isUpper false (head r) = false.
Proof.
  eexists. split; [apply toCamelCase_result|].
  destruct (testClass Camel.isDelim (trim s)) eqn:Hd.
  - pose proof (tokens_words Camel.isDelim (trim s)) as Hw.
    split; [by apply camelWords_no_delim|].
    destruct Hw as [|t rest [Hne _] _]; [done|]. unfold Spec.camelWords.
    destruct (toLowerCase t) as [|d r] eqn:E; [by apply lower_nonempty in E|].
    pose proof (lower_no_upper t) as H. rewrite E in H.
    by apply Forall_cons in H as [H _].
  - split; [|apply camelSingle_head].
    by apply camelSingle_no_delim, testClass_Forall.
Qed.

(** X8.  The result of [toCamelCase] on a string never contains a
    delimiter (whitespace, hyphen, underscore) and never begins with an
    uppercase letter of the pattern [[A-Z]]. *)
Theorem toCamelCase_output_shape (s : jsstring) :
  exists r : jsstring,
    toCamelCase (VString s) = Return r /\
    Forall (fun c => Camel.isDelim c = false) r /\
    from_option isUpper false (head r) = false.
Proof. apply toCamelCase_output_shape_aux. Qed.

(** *** Strings of the ASCII range *)

Lemma toLowerCase_isAscii t :
  Forall (fun c => isAscii c = true) t ->
  Forall (fun c => isAscii c = true) (toLowerCase t).
Proof.
  intros H. rewrite lower_ascii by by apply forallb_Forall.
  apply Forall_map. eapply Forall_impl; [exact H|].
  intros c Hc. simpl. by rewrite isAscii_lowerChar.
Qed.

Lemma toUpperCase_isAscii t :
  Forall (fun c => isAscii c = true) t ->
  Forall (fun c => isAscii c = true) (toUpperCase t).
Proof.
  intros H. rewrite upper_ascii by by apply forallb_Forall.
  apply Forall_map. eapply Forall_impl; [exact H|].
  intros c Hc. simpl. by rewrite isAscii_upperChar.
Qed.

Lemma capitalized_isAscii t :
  Forall (fun c => isAscii c = true) t ->
  Forall (fun c => isAscii c = true) (Spec.capitalized t).
Proof.
  intros [|c r Hc Hr]; [constructor|]. unfold Spec.capitalized.
  apply Forall_app. split.
  - apply toUpperCase_isAscii. by constructor.
  - by apply toLowerCase_isAscii.
Qed.

Lemma camelSingle_isAscii t :
  Forall (fun c => isAscii c = true) t ->
  Forall (fun c => isAscii c = true) (Spec.camelSingle t).
Proof.
  intros H. unfold Spec.camelSingle. repeat case_match; [done| |].
  - by apply toLowerCase_isAscii.
  - destruct H as [|c r Hc Hr]; [constructor|]. unfold Spec.lowerFirst.
    apply Forall_app. split; [|done]. apply toLowerCase_isAscii. by constructor.
Qed.

Lemma camelWords_isAscii toks :
  Forall (Forall (fun c => isAscii c = true)) toks ->
  Forall (fun c => isAscii c = true) (Spec.camelWords toks).
Proof.
  intros [|t rest Ht Hrest]; [constructor|]. simpl.
  apply Forall_app. split; [by apply toLowerCase_isAscii|].
  apply Forall_concat, Forall_map. eapply Forall_impl; [exact Hrest|].
  intros p Hp. by apply capitalized_isAscii.
Qed.

(** On an input of the ASCII range the result is of the ASCII range. *)
Lemma toCamelCase_isAscii s r :
  forallb isAscii s = true -> toCamelCase (VString s) = Return r ->
  forallb isAscii r = true.
Proof.
  intros Hs. rewrite toCamelCase_result. intros [= <-].
  apply forallb_Forall in Hs. apply forallb_Forall.
  pose proof (trim_Forall _ s Hs) as Ht. case_match.
  - by apply camelWords_isAscii, tokens_Forall.
  - by apply camelSingle_isAscii.
Qed.

Lemma camelSingle_again r :
  forallb isAscii r = true ->
  from_option isUpper false (head r) = false ->
  Spec.camelSingle r = if Spec.noLowercase r then toLowerCase r else r.
Proof.
  intros Ha Hh. unfold Spec.camelSingle. rewrite ownUppercase_ascii by done.
  destruct (Spec.alreadyCamel r) eqn:Hc.
  - by rewrite alreadyCamel_has_lowercase.
  - destruct (Spec.noLowercase r); [done|].
    destruct r as [|c t]; [done|]. unfold Spec.lowerFirst. simpl in *.
    apply andb_prop in Ha as [Ha _].
    rewrite lower_ascii by (simpl; by rewrite Ha). simpl.
    by rewrite lowerChar_fixed.
Qed.

Lemma toCamelCase_again r :
  forallb isAscii r = true ->
  Forall (fun c => Camel.isDelim c = false) r ->
  from_option isUpper false (head r) = false ->
  toCamelCase (VString r) =
    Return (if Spec.noLowercase r then toLowerCase r else r).
Proof.
  intros Ha Hd Hh. rewrite toCamelCase_result, no_camel_delim_trim by done.
  apply testClass_Forall in Hd. rewrite Hd. by rewrite camelSingle_again.
Qed.

(** X9.  [toCamelCase] applied a second time, on strings of the ASCII
    range: a result that contains a lowercase letter is returned
    unchanged, and a result without any lowercase letter is lowercased.
    So [toCamelCase] is idempotent on the inputs whose result has a
    lowercase letter or no uppercase letter, and not in general: "1-b"
    gives "1B", which gives "1b". *)
Theorem toCamelCase_twice :
  (forall s : jsstring,
     forallb isAscii s = true ->
     exists r : jsstring,
       toCamelCase (VString s) = Return r /\
       toCamelCase (VString r) =
         Return (if Spec.noLowercase r then toLowerCase r else r)) /\
  (forall s r : jsstring,
     forallb isAscii s = true ->
     toCamelCase (VString s) = Return r ->
     Spec.noLowercase r = false \/ existsb isUpper r = false ->
     toCamelCase (VString r) = Return r) /\
  toCamelCase (VString (lit "1-b")) = Return (lit "1B") /\
  toCamelCase (VString (lit "1B")) = Return (lit "1b").
Proof.
  assert (H : forall s r, forallb isAscii s = true ->
                toCamelCase (VString s) = Return r ->
                toCamelCase (VString r) =
                  Return (if Spec.noLowercase r then toLowerCase r else r)).
  { intros s r Hs Hr.
    pose proof (toCamelCase_isAscii s r Hs Hr) as Ha.
    destruct (toCamelCase_output_shape_aux s) as (r' & E & Hd & Hh).
    rewrite E in Hr. injection Hr as <-. by apply toCamelCase_again. }
  split; [|split; [|split; by rewrite toCamelCase_ascii]].
  - intros s Hs. destruct (toCamelCase_output_shape_aux s) as (r & E & _).
    exists r. split; [done|]. by apply (H s).
  - intros s r Hs Hr Hc. rewrite (H s r Hs Hr).
    destruct (Spec.noLowercase r) eqn:Hn; [|done].
    destruct Hc as [Hc|Hc]; [done|]. f_equal.
    rewrite lower_ascii by by apply (toCamelCase_isAscii s).
    apply map_lowerChar_fixed.
    clear -Hc. induction r as [|c t IH]; [constructor|]. simpl in Hc.
    apply orb_false_iff in Hc as [Hc Ht]. constructor; [done | by apply IH].
Qed.

End CamelShape.

Lemma toCamelCase_output_shape_witness :
  exists r : jsstring,
    @toCamelCase asciiCase (VString (lit " Hello_big-World ")) = Return r /\
    Forall (fun c => Camel.isDelim c = false) r /\
    from_option isUpper false (head r) = false.
Proof. apply (@toCamelCase_output_shape asciiCase asciiLaws). Defined.

Lemma toCamelCase_twice_witness :
  forallb isAscii (lit "Hello world") = true /\
  @toCamelCase asciiCase (VString (lit "Hello world")) = Return (lit "helloWorld") /\
  @toCamelCase asciiCase (VString (lit "helloWorld")) = Return (lit "helloWorld").
Proof.
  split; [reflexivity|]. split; [reflexivity|].
  apply (proj1 (proj2 (@toCamelCase_twice asciiCase asciiLaws))
           (lit "Hello world") (lit "helloWorld"));
    [reflexivity | reflexivity | by left].
Defined.

(** ** More on splitCamel *)

Lemma boundary_no_lower token i :
  Forall (fun c => isLower c = false) token -> Shape.boundary token i = false.
Proof.
  intros H. unfold Shape.boundary, lowerAt.
  assert (E : forall j, from_option isLower false (token !! j) = false).
  { intros j. destruct (token !! j) as [c|] eqn:Ej; [|done]. simpl.
    apply list_elem_of_lookup_2 in Ej. rewrite Forall_forall in H. by apply H. }
  by rewrite !E, andb_false_r, andb_false_r.
Qed.

Lemma scanned_no_boundary token k :
  (forall i, Shape.boundary token i = false) -> k < length token ->
  Shape.scanned token k = Scan [] (take (S k) token).
Proof.
  intros Hb. induction k as [|k IH]; intros Hk; [done|].
  destruct (lookup_lt_is_Some_2 token (S k) Hk) as [ch Hch].
  rewrite scanned_S, (splitStep_boundary _ _ _ ch Hch), Hb.
  rewrite IH by lia. simpl. by rewrite (take_S_r _ (S k) ch).
Qed.

Lemma splitCamel_no_boundary token :
  token <> [] -> (forall i, Shape.boundary token i = false) ->
  splitCamel token = [token].
Proof.
  intros Hne Hb. rewrite splitCamel_scanned by done.
  rewrite scanned_no_boundary; [|done|destruct token; [done | simpl; lia]].
  simpl. rewrite take_ge; [done|]. destruct token; simpl; lia.
Qed.

(** X10.  [splitCamel] leaves whole every token in which one letter case
    is missing: a token without lowercase letter (an acronym such as
    "FOOBAR", with or without digits and symbols) and a token without
    uppercase letter each come back as a single part. *)
Theorem splitCamel_one_case (token : jsstring) :
  token <> [] ->
  Forall (fun c => isLower c = false) token \/
  Forall (fun c => isUpper c = false) token ->
  splitCamel token = [token].
Proof.
  intros Hne [H|H]; apply splitCamel_no_boundary; try done; intros i.
  - by apply boundary_no_lower.
  - by apply boundary_no_upper.
Qed.

Lemma splitCamel_one_case_witness :
  splitCamel (lit "FOOBAR2") = [lit "FOOBAR2"].
Proof.
  apply (splitCamel_one_case (lit "FOOBAR2")); [discriminate|].
  left. repeat constructor.
Defined.

Lemma scanned_upper_heads token k :
  k < length token ->
  let st := Shape.scanned token k in
  buf st <> [] /\
  Forall (fun p => from_option isUpper false (head p) = true)
         (drop 1 (parts st ++ [buf st])).
Proof.
  induction k as [|k IH]; intros Hk; cbv zeta.
  - destruct token; [simpl in Hk; lia|]. simpl. by split.
  - destruct IH as [Hbuf Hup]; [lia|].
    destruct (lookup_lt_is_Some_2 token (S k) Hk) as [ch Hch].
    rewrite scanned_S, (splitStep_boundary _ _ _ ch Hch).
    set (st := Shape.scanned token k) in *.
    destruct (Shape.boundary token (S k)) eqn:Hb; simpl.
    + split; [done|].
      replace (drop 1 ((parts st ++ [buf st]) ++ [[ch]]))
        with (drop 1 (parts st ++ [buf st]) ++ [[ch]])
        by (by destruct (parts st)).
      apply Forall_app. split; [done|]. constructor; [|done]. simpl.
      unfold Shape.boundary in Hb. rewrite Hch in Hb. simpl in Hb.
      by apply andb_prop in Hb as [? _].
    + split; [by destruct (buf st)|].
      destruct (parts st) as [|p ps]; [done|]. simpl in *.
      apply Forall_app in Hup as [Hps Hbf]. apply Forall_app. split; [done|].
      constructor; [|done]. apply Forall_cons in Hbf as [Hbf _].
      by destruct (buf st).
Qed.

(** X11.  Every part that [splitCamel] returns after the first one begins
    with an uppercase letter. *)
Theorem splitCamel_later_parts_capitalized (token : jsstring) :
  Forall (fun p => exists c t, p = c :: t /\ isUpper c = true)
         (drop 1 (splitCamel token)).
Proof.
  destruct token as [|c0 rest] eqn:E; [constructor|]. rewrite <- E.
  assert (Hne : token <> []) by by rewrite E.
  rewrite splitCamel_scanned by done.
  assert (Hlen : length token - 1 < length token)
    by (rewrite E; simpl; lia).
  destruct (scanned_upper_heads token _ Hlen) as [_ H].
  eapply Forall_impl; [exact H|]. intros [|c t] Hp; [done|]. by exists c, t.
Qed.

(** ** The earlier toCamelCase *)

Lemma splitFrom_false_head cls s cur :
  exists p ps, splitFrom cls false cur s = (cur ++ p) :: ps.
Proof.
  revert cur. induction s as [|c t IH]; intros cur; simpl.
  - exists [], []. by rewrite app_nil_r.
  - destruct (cls c).
    + exists [], (splitFrom cls true [] t). by rewrite app_nil_r.
    + destruct (IH (cur ++ [c])) as (p & ps & ->).
      exists (c :: p), ps. by rewrite <- app_assoc.
Qed.

Lemma camel_draft_isDelim c :
  (isSpace c = true -> c = ch " ") -> Camel.isDelim c = Draft.isDelim c.
Proof.
  intros H. unfold Camel.isDelim, Draft.isDelim.
  destruct (isSpace c) eqn:E.
  - rewrite (H eq_refl). reflexivity.
  - assert ((c =? ch " ")%N = false) as -> by (classes; lia).
    by rewrite orb_false_r.
Qed.

Section DraftProofs.
Context {U : Unicode} {L : UnicodeLaws U}.

Lemma imap_camelWord p0 ps :
  join [] (imap (fun index word => Draft.camelWord word index) (p0 :: ps))
  = toLowerCase p0
    ++ concat (map Spec.capitalized (filter (fun t => truthy t = true) ps)).
Proof.
  rewrite join_empty_sep. simpl. f_equal.
  rewrite (imap_ext _ (const capitalize)) by done.
  rewrite imap_const. induction ps as [|p ps IH]; [done|].
  rewrite fmap_cons, concat_cons, IH, capitalize_capitalized.
  destruct p as [|c r].
  - by rewrite filter_cons_False.
  - by rewrite filter_cons_True.
Qed.

Lemma draft_result s :
  Draft.toCamelCase s =
    if from_option Draft.isDelim false (head s)
    then concat (map Spec.capitalized (Spec.tokens Draft.isDelim s))
    else Spec.camelWords (Spec.tokens Draft.isDelim s).
Proof.
  unfold Draft.toCamelCase. destruct s as [|c t].
  { change (split Draft.isDelim []) with [[] : jsstring].
    by rewrite imap_camelWord, lower_nil. }
  simpl head. simpl from_option. rewrite <- split_tokens. unfold split.
  simpl splitFrom. destruct (Draft.isDelim c) eqn:Hc.
  - rewrite imap_camelWord. rewrite lower_nil. by rewrite filter_cons_False.
  - destruct (splitFrom_false_head Draft.isDelim t [c]) as (p & ps & ->).
    rewrite imap_camelWord. by rewrite filter_cons_True.
Qed.

(** X12.  The earlier [toCamelCase] keeps the empty piece that [split]
    leaves before a leading delimiter, and that piece takes the place of
    the first word: on a string that begins with a hyphen, an underscore
    or a space every word is capitalized, the first one included; on any
    other string the first word is lowercased and the later ones are
    capitalized.  The words are the runs between hyphens, underscores and
    spaces. *)
Theorem draft_toCamelCase_words (s : jsstring) :
  Draft.toCamelCase s =
    if from_option Draft.isDelim false (head s)
    then concat (map Spec.capitalized (Spec.tokens Draft.isDelim s))
    else Spec.camelWords (Spec.tokens Draft.isDelim s).
Proof. apply draft_result. Qed.

(** X13.  The earlier [toCamelCase] and the one of [refined_prompt.js]
    agree on every string whose only whitespace characters are spaces
    (U+0020), that does not begin with a delimiter and that, once trimmed,
    still contains one. *)
Theorem draft_agrees_with_refined (s : jsstring) :
  Forall (fun c => isSpace c = true -> c = ch " ") s ->
  from_option Draft.isDelim false (head s) = false ->
  testClass Camel.isDelim (trim s) = true ->
  toCamelCase (VString s) = Return (Draft.toCamelCase s).
Proof.
  intros Hsp Hhead Hd. rewrite toCamelCase_words by done.
  rewrite camel_tokens_trim.
  rewrite draft_result, Hhead. f_equal. f_equal.
  apply tokens_ext. eapply Forall_impl; [exact Hsp|].
  intros c Hc. by apply camel_draft_isDelim.
Qed.

End DraftProofs.

Lemma draft_toCamelCase_words_witness :
  @Draft.toCamelCase asciiCase (lit "-leading-delim") = lit "LeadingDelim".
Proof.
  rewrite (@draft_toCamelCase_words asciiCase asciiLaws). reflexivity.
Defined.

Lemma draft_agrees_with_refined_witness :
  @toCamelCase asciiCase (VString (lit "convert to camel_case"))
    = Return (@Draft.toCamelCase asciiCase (lit "convert to camel_case")).
Proof.
  apply (@draft_agrees_with_refined asciiCase asciiLaws (lit "convert to camel_case")).
  - repeat constructor; vm_compute; congruence.
  - reflexivity.
  - reflexivity.
Defined.

(** ** The self-tests *)

Section SelfTestProofs.
Context {U : Unicode} {L : UnicodeLaws U}.

Lemma runCase_ok t tc :
  toKebabCase tc.1 = Return tc.2 ->
  SelfTest.runCase t tc = SelfTest.Tally (S (SelfTest.passed t)) (SelfTest.failed t).
Proof.
  destruct tc as [input expected]. simpl. intros E.
  unfold SelfTest.runCase, strictEq. rewrite E.
  by rewrite bool_decide_eq_true_2.
Qed.

Lemma runCase_ko t tc :
  toKebabCase tc.1 <> Return tc.2 ->
  SelfTest.runCase t tc = SelfTest.Tally (SelfTest.passed t) (S (SelfTest.failed t)).
Proof.
  destruct tc as [input expected]. simpl. intros E.
  unfold SelfTest.runCase, strictEq.
  destruct (toKebabCase input) as [result|e]; [|done].
  rewrite bool_decide_eq_false_2; [done|]. intros ->. by apply E.
Qed.

Lemma case_ok_dec (tc : value * jsstring) :
  {toKebabCase tc.1 = Return tc.2} + {toKebabCase tc.1 <> Return tc.2}.
Proof.
  destruct (toKebabCase tc.1) as [result|e]; [|by right].
  destruct (decide (result = tc.2)) as [->|Hne]; [by left|].
  right. by intros [= ?].
Qed.

Lemma foldl_runCase t cases :
  let t' := foldl SelfTest.runCase t cases in
  SelfTest.passed t' + SelfTest.failed t'
    = SelfTest.passed t + SelfTest.failed t + length cases /\
  SelfTest.failed t <= SelfTest.failed t' /\
  (SelfTest.failed t' = SelfTest.failed t <->
   Forall (fun tc => toKebabCase tc.1 = Return tc.2) cases).
Proof.
  revert t. induction cases as [|tc cases IH]; intros t; cbv zeta.
  - simpl. split; [lia|]. split; [lia|]. split; [constructor | done].
  - simpl foldl. destruct (case_ok_dec tc) as [Hok|Hko].
    + rewrite runCase_ok by done.
      destruct (IH (SelfTest.Tally (S (SelfTest.passed t)) (SelfTest.failed t)))
        as (H1 & H2 & H3). simpl in *.
      split; [lia|]. split; [lia|]. rewrite H3, Forall_cons. tauto.
    + rewrite runCase_ko by done.
      destruct (IH (SelfTest.Tally (SelfTest.passed t) (S (SelfTest.failed t))))
        as (H1 & H2 & H3). simpl in *.
      split; [lia|]. split; [lia|]. rewrite Forall_cons. split; [lia | tauto].
Qed.

(** Every row of the shipped table holds. *)
Lemma testCases_hold :
  Forall (fun tc => toKebabCase tc.1 = Return tc.2) SelfTest.testCases.
Proof.
  unfold SelfTest.testCases.
  repeat apply Forall_cons_2; try apply Forall_nil_2; cbn [fst snd];
    first [ reflexivity | by rewrite toKebabCase_ascii ].
Qed.

(** X14.  The self-test of the kebab module counts every case once, as
    passed or as failed, and exits with status 0 exactly when [toKebabCase]
    returns the expected string on every case of the table, and with
    status 1 otherwise.  On the table the module ships, all sixteen cases
    pass and the status is 0. *)
Theorem kebab_self_test :
  (forall cases : list (value * jsstring),
     let t := SelfTest.runCases cases in
     SelfTest.passed t + SelfTest.failed t = length cases /\
     (SelfTest.exitStatus t = 0 <->
      Forall (fun tc => toKebabCase tc.1 = Return tc.2) cases) /\
     (SelfTest.exitStatus t = 0 \/ SelfTest.exitStatus t = 1)) /\
  SelfTest.runCases SelfTest.testCases = SelfTest.Tally 16 0 /\
  SelfTest.exitStatus (SelfTest.runCases SelfTest.testCases) = 0.
Proof.
  assert (E : SelfTest.runCases SelfTest.testCases = SelfTest.Tally 16 0).
  { unfold SelfTest.runCases.
    destruct (foldl_runCase (SelfTest.Tally 0 0) SelfTest.testCases) as (H1 & _ & H3).
    pose proof (proj2 H3 testCases_hold) as H0.
    destruct (foldl SelfTest.runCase _ _) as [p f]. simpl in *. subst f.
    f_equal. lia. }
  split; [|split; [exact E | by rewrite E]].
  intros cases. cbv zeta. unfold SelfTest.runCases.
  destruct (foldl_runCase (SelfTest.Tally 0 0) cases) as (H1 & H2 & H3).
  simpl in *. split; [lia|]. unfold SelfTest.exitStatus.
  destruct (Nat.ltb_spec 0 (SelfTest.failed (foldl SelfTest.runCase (SelfTest.Tally 0 0) cases)))
    as [Hlt|Hge].
  - split; [|by right]. split; [done|]. intros HF. apply H3 in HF. lia.
  - split; [|by left]. split; [|done]. intros _. apply H3. lia.
Qed.

Lemma camelAssertions_ascii :
  SelfTest.camelAssertions = @SelfTest.camelAssertions asciiCase.
Proof.
  unfold SelfTest.camelAssertions, SelfTest.cases. cbn [map app fst snd].
  repeat (apply (f_equal2 cons);
    [ first [ apply (f_equal2 SelfTest.StrictEqual);
              [ apply toCamelCase_ascii; reflexivity | reflexivity ]
            | reflexivity ] | ]).
  reflexivity.
Qed.

Lemma dotAssertions_ascii :
  SelfTest.dotAssertions = @SelfTest.dotAssertions asciiCase.
Proof.
  unfold SelfTest.dotAssertions. cbv zeta.
  repeat (apply (f_equal2 cons);
    [ first [ apply (f_equal2 SelfTest.StrictEqual);
              [ apply toDotCase_ascii; reflexivity | reflexivity ]
            | reflexivity ] | ]).
  reflexivity.
Qed.

(** X15.  Every assertion of the two self-tests of [refined_prompt.js]
    holds, so both scripts run to their closing message: the twenty-two
    rows of the [toCamelCase] table, its three [assert.throws] and two
    further equalities, and the twenty-three equalities and three
    [assert.throws] of [toDotCase]. *)
Theorem refined_self_tests_pass :
  length SelfTest.camelAssertions = 27 /\
  SelfTest.allPassed SelfTest.camelAssertions = true /\
  length SelfTest.dotAssertions = 26 /\
  SelfTest.allPassed SelfTest.dotAssertions = true.
Proof. rewrite camelAssertions_ascii, dotAssertions_ascii. repeat split. Qed.

End SelfTestProofs.

Lemma kebab_self_test_witness :
  @SelfTest.runCases asciiCase SelfTest.testCases = SelfTest.Tally 16 0 /\
  SelfTest.exitStatus (@SelfTest.runCases asciiCase SelfTest.testCases) = 0.
Proof. apply (proj2 (@kebab_self_test asciiCase asciiLaws)). Defined.

Lemma refined_self_tests_pass_witness :
  length (@SelfTest.camelAssertions asciiCase) = 27 /\
  SelfTest.allPassed (@SelfTest.camelAssertions asciiCase) = true /\
  length (@SelfTest.dotAssertions asciiCase) = 26 /\
  SelfTest.allPassed (@SelfTest.dotAssertions asciiCase) = true.
Proof. apply (@refined_self_tests_pass asciiCase asciiLaws). Defined.

(** ** The characters of the input are kept *)

Lemma concat_tokens cls s :
  concat (Spec.tokens cls s) = filter (fun c => cls c = false) s.
Proof.
  induction s as [|c t IH]; [done|].
  destruct (cls c) eqn:Hc.
  - by rewrite tokens_cons_delim, filter_cons_False, IH by congruence.
  - rewrite filter_cons_True by done. rewrite <- IH.
    destruct t as [|d t]; [by rewrite tokens_cons_end|].
    destruct (cls d) eqn:Hd; [by rewrite tokens_cons_end|].
    by destruct (tokens_cons_more cls c d t Hc Hd) as (r & rest & -> & ->).
Qed.

Lemma filter_insertHyphens s :
  filter (fun c => Kebab.isDelim c = false) (Spec.insertHyphens s)
  = filter (fun c => Kebab.isDelim c = false) s.
Proof.
  induction s as [|c t IH]; [done|]. destruct t as [|d t]; [done|].
  rewrite insertHyphens_cons2.
  destruct (isLower c && isUpper d).
  - rewrite (filter_cons _ c), (filter_cons_False _ (ch "-")), IH by done.
    by rewrite (filter_cons _ c (d :: t)).
  - by rewrite (filter_cons _ c), IH, (filter_cons _ c (d :: t)).
Qed.

Lemma concat_splitCamel toks :
  concat (concat (map splitCamel toks)) = concat toks.
Proof.
  induction toks as [|t toks IH]; [done|]. simpl. rewrite concat_app, IH.
  f_equal. destruct t as [|c r]; [done|].
  by apply (splitCamel_partition (c :: r)).
Qed.

Lemma filter_trim cls s :
  (forall c, isSpace c = true -> cls c = true) ->
  filter (fun c => cls c = false) (trim s) = filter (fun c => cls c = false) s.
Proof.
  intros Hcls. by rewrite <- !concat_tokens, tokens_trim.
Qed.

Lemma lowerChar_idem c : lowerChar (lowerChar c) = lowerChar c.
Proof. apply lowerChar_fixed, isUpper_lowerChar. Qed.

Lemma map_lowerChar_idem s : map lowerChar (map lowerChar s) = map lowerChar s.
Proof. apply map_lowerChar_fixed, map_lowerChar_no_upper. Qed.

(** With the case maps of the ASCII range, which work character by
    character, the result of [toCamelCase] lowercased is its input
    lowercased. *)
Lemma ascii_camelSingle t :
  map lowerChar (@Spec.camelSingle asciiCase t) = map lowerChar t.
Proof.
  unfold Spec.camelSingle. repeat case_match; [done | apply map_lowerChar_idem |].
  destruct t as [|c r]; [done|]. simpl. by rewrite lowerChar_idem.
Qed.

Lemma ascii_capitalized p :
  map lowerChar (@Spec.capitalized asciiCase p) = map lowerChar p.
Proof.
  destruct p as [|c r]; [done|]. simpl.
  by rewrite lowerChar_upperChar, map_lowerChar_idem.
Qed.

Lemma ascii_camelWords toks :
  map lowerChar (@Spec.camelWords asciiCase toks) = map lowerChar (concat toks).
Proof.
  destruct toks as [|t rest]; [done|]. simpl.
  rewrite !map_app, map_lowerChar_idem. f_equal.
  induction rest as [|p rest IH]; [done|]. simpl.
  by rewrite !map_app, IH, ascii_capitalized.
Qed.

Section KeptProofs.
Context {U : Unicode} {L : UnicodeLaws U}.

Lemma toLowerCase_app_ascii a b :
  Forall (fun c => isAscii c = true) a -> Forall (fun c => isAscii c = true) b ->
  toLowerCase (a ++ b) = toLowerCase a ++ toLowerCase b.
Proof.
  intros Ha Hb.
  rewrite !lower_ascii by (apply forallb_Forall; try apply Forall_app; done).
  apply map_app.
Qed.

Lemma concat_map_toLowerCase ws :
  Forall (Forall (fun c => isAscii c = true)) ws ->
  concat (map toLowerCase ws) = toLowerCase (concat ws).
Proof.
  induction 1 as [|w ws Hw Hws IH]; simpl; [by rewrite lower_nil|].
  rewrite toLowerCase_app_ascii, IH; [done | done | by apply Forall_concat].
Qed.

(** X16.  On a string of the ASCII range, the converters keep the
    characters of the input that are not delimiters, in their order, and
    change nothing but letter case: the words joined by [toKebabCase] and
    by [toDotCase], put end to end, are the non-delimiter characters of
    the input lowercased, and the result of [toCamelCase] is those
    characters up to letter case.  No other character is dropped, added or
    moved. *)
Theorem non_delimiters_kept (s : jsstring) :
  forallb isAscii s = true ->
  (exists ws : list jsstring,
     toKebabCase (VString s) = Return (join [ch "-"] ws) /\
     concat ws = toLowerCase (filter (fun c => Kebab.isDelim c = false) s)) /\
  (exists ws : list jsstring,
     toDotCase (VString s) = Return (join [ch "."] ws) /\
     concat ws = toLowerCase (filter (fun c => Dot.isDelim c = false) s)) /\
  (exists r : jsstring,
     toCamelCase (VString s) = Return r /\
     toLowerCase r = toLowerCase (filter (fun c => Camel.isDelim c = false) s)).
Proof.
  intros Hs. pose proof (proj1 (forallb_Forall _ _) Hs) as Ha.
  split; [|split].
  - eexists. split; [apply toKebabCase_words|].
    rewrite hyphenateCamel_insertHyphens.
    rewrite concat_map_toLowerCase
      by (by apply tokens_Forall, insertHyphens_Forall).
    by rewrite concat_tokens, filter_insertHyphens.
  - eexists. split; [apply toDotCase_dotCase|].
    rewrite concat_map_toLowerCase.
    + rewrite concat_splitCamel, concat_tokens.
      by rewrite filter_trim by apply dot_isDelim_space.
    + apply Forall_concat, Forall_map.
      eapply Forall_impl; [by apply tokens_Forall, trim_Forall|].
      intros t Ht. by apply splitCamel_Forall.
  - rewrite toCamelCase_ascii by done.
    pose proof (@toCamelCase_result asciiCase asciiLaws s) as E.
    eexists. split; [exact E|].
    pose proof (@toCamelCase_isAscii asciiCase asciiLaws s _ Hs E) as Hr.
    rewrite !lower_ascii; [|by apply forallb_Forall, filter_Forall | done].
    rewrite <- (filter_trim Camel.isDelim s)
      by (intros c Hc; unfold Camel.isDelim; by rewrite Hc).
    rewrite <- concat_tokens.
    destruct (testClass Camel.isDelim (trim s)) eqn:Hd.
    + apply ascii_camelWords.
    + rewrite ascii_camelSingle.
      apply testClass_Forall in Hd. rewrite tokens_no_delim by done.
      destruct (trim s); simpl; by rewrite ?app_nil_r.
Qed.

End KeptProofs.

Lemma non_delimiters_kept_witness :
  exists r : jsstring,
    @toCamelCase asciiCase (VString (lit " get_HTTP-response ")) = Return r /\
    @toLowerCase asciiCase r = lit "gethttpresponse".
Proof.
  apply (proj2 (proj2 (@non_delimiters_kept asciiCase asciiLaws
                         (lit " get_HTTP-response ") eq_refl))).
Defined.

(** ** splitCamel from the left *)

Lemma partsFrom_nonempty c t : Parts.partsFrom c t <> [].
Proof.
  destruct t as [|d t]; [done|]. simpl.
  destruct (Parts.cut c d (head t)); [done|].
  by destruct (Parts.partsFrom d t).
Qed.

(** The loop resumed in the middle of a token: [pre] has been read, [c] is
    the last character of the buffer and [t] is still to come. *)
Lemma splitStep_resume t pre ps b c :
  let st := foldl (splitStep (pre ++ c :: t)) (Scan ps (b ++ [c]))
                  (seq (S (length pre)) (length t)) in
  parts st ++ [buf st] =
    ps ++ match Parts.partsFrom c t with
          | [] => []
          | p :: rest => (b ++ p) :: rest
          end.
Proof.
  revert pre ps b c. induction t as [|d t IH]; intros pre ps b c; cbv zeta.
  - done.
  - simpl seq. simpl foldl.
    assert (Hd : (pre ++ c :: d :: t) !! S (length pre) = Some d).
    { rewrite lookup_app_r by lia.
      by replace (S (length pre) - length pre) with 1 by lia. }
    assert (Hc : (pre ++ c :: d :: t) !! (S (length pre) - 1) = Some c).
    { rewrite lookup_app_r by lia.
      by replace (S (length pre) - 1 - length pre) with 0 by lia. }
    assert (Hn : (pre ++ c :: d :: t) !! (S (length pre) + 1) = head t).
    { rewrite lookup_app_r by lia.
      replace (S (length pre) + 1 - length pre) with 2 by lia. by destruct t. }
    assert (Estep :
      splitStep (pre ++ c :: d :: t) (Scan ps (b ++ [c])) (S (length pre)) =
        if Parts.cut c d (head t) then Scan (ps ++ [b ++ [c]]) [d]
        else Scan ps ((b ++ [c]) ++ [d])).
    { unfold splitStep. by rewrite Hd, Hc, Hn. }
    rewrite Estep. clear Estep. simpl Parts.partsFrom.
    assert (IH' : forall ps' b',
      let st := foldl (splitStep (pre ++ c :: d :: t)) (Scan ps' (b' ++ [d]))
                      (seq (S (S (length pre))) (length t)) in
      parts st ++ [buf st] =
        ps' ++ match Parts.partsFrom d t with
               | [] => []
               | p :: rest => (b' ++ p) :: rest
               end).
    { intros ps' b'. pose proof (IH (pre ++ [c]) ps' b' d) as H.
      cbv zeta in *. rewrite <- app_assoc, length_app in H. simpl in H.
      by replace (length pre + 1) with (S (length pre)) in H by lia. }
    pose proof (partsFrom_nonempty d t) as Hne.
    destruct (Parts.cut c d (head t)).
    + pose proof (IH' (ps ++ [b ++ [c]]) []) as H. cbv zeta in H.
      change ([] ++ [d]) with [d] in H. rewrite H.
      destruct (Parts.partsFrom d t); [done|]. by rewrite <- app_assoc.
    + pose proof (IH' ps (b ++ [c])) as H. cbv zeta in H. rewrite H.
      destruct (Parts.partsFrom d t); [done|]. simpl. by rewrite <- app_assoc.
Qed.

Lemma splitCamel_partsFrom c t : splitCamel (c :: t) = Parts.partsFrom c t.
Proof.
  pose proof (splitStep_resume t [] [] [] c) as H. cbv zeta in H.
  simpl in H. simpl. rewrite Nat.sub_0_r.
  rewrite H. by destruct (Parts.partsFrom c t).
Qed.

(** ** toKebabCase and toDotCase without acronyms *)

Lemma insertHyphens_head d t :
  exists y, Spec.insertHyphens (d :: t) = d :: y.
Proof.
  destruct t as [|e t]; [by exists []|]. rewrite insertHyphens_cons2.
  destruct (isLower d && isUpper e); by eexists.
Qed.

Lemma kebab_dot_same_parts s :
  Parts.noUpperPair s = true ->
  Spec.tokens Dot.isDelim (Spec.insertHyphens s)
  = concat (map splitCamel (Spec.tokens Dot.isDelim s)).
Proof.
  induction s as [|c t IH]; [done|]. intros Hs.
  simpl in Hs. apply andb_prop in Hs as [Hcd Ht]. specialize (IH Ht).
  destruct (Dot.isDelim c) eqn:Hc.
  { rewrite insertHyphens_cons_not_lower by by apply delim_not_lower.
    by rewrite !tokens_cons_delim. }
  destruct t as [|d t];
    [simpl Spec.insertHyphens; by rewrite (tokens_cons_end _ c [])|].
  simpl in Hcd. apply negb_true_iff in Hcd.
  rewrite insertHyphens_cons2.
  destruct (Dot.isDelim d) eqn:Hd.
  - rewrite (delim_not_upper d Hd), andb_false_r.
    destruct (insertHyphens_head d t) as [y Hy]. rewrite Hy in *.
    rewrite (tokens_cons_end _ c (d :: y)), (tokens_cons_end _ c (d :: t)) by done.
    simpl. by rewrite IH.
  - destruct (tokens_cons_more Dot.isDelim c d t Hc Hd) as (r & rest & E1 & E2).
    rewrite E2. rewrite E1 in IH. cbn [map concat] in *.
    rewrite splitCamel_partsFrom in *. simpl Parts.partsFrom.
    assert (Ecut : Parts.cut c d (head r) = isLower c && isUpper d).
    { unfold Parts.cut. destruct (isUpper c), (isUpper d), (isLower c); done. }
    rewrite Ecut. destruct (isLower c && isUpper d).
    + rewrite tokens_cons_end by done. rewrite tokens_cons_delim by done.
      by rewrite IH.
    + destruct (insertHyphens_head d t) as [y Hy]. rewrite Hy in *.
      destruct (tokens_cons_more Dot.isDelim c d y Hc Hd) as (r2 & rest2 & F1 & F2).
      rewrite F2. rewrite F1 in IH.
      pose proof (partsFrom_nonempty d r) as Hne.
      destruct (Parts.partsFrom d r) as [|p ps]; [done|]. simpl in *.
      by injection IH as <- <-.
Qed.

(** X17.  On a string in which no uppercase letter is followed at once by
    another one, [toKebabCase] and [toDotCase] cut the same words and differ
    by the separator only.  (Acronyms are where they part: "FOOBar" gives
    "foobar" and "foo.bar".) *)
Theorem kebab_dot_same_words {U : Unicode} {L : UnicodeLaws U} (s : jsstring) :
  Parts.noUpperPair s = true ->
  exists ws : list jsstring,
    toKebabCase (VString s) = Return (join [ch "-"] ws) /\
    toDotCase (VString s) = Return (join [ch "."] ws).
Proof.
  intros Hs. eexists. split; [apply toKebabCase_words|].
  rewrite toDotCase_dotCase. unfold Spec.dotCase. do 2 f_equal.
  rewrite tokens_trim by apply dot_isDelim_space.
  rewrite hyphenateCamel_insertHyphens, kebab_dot_tokens.
  by rewrite kebab_dot_same_parts.
Qed.

Lemma kebab_dot_same_words_witness :
  exists ws : list jsstring,
    @toKebabCase asciiCase (VString (lit "getUser_byId now")) = Return (join [ch "-"] ws) /\
    @toDotCase asciiCase (VString (lit "getUser_byId now")) = Return (join [ch "."] ws).
Proof.
  apply (@kebab_dot_same_words asciiCase asciiLaws (lit "getUser_byId now")).
  reflexivity.
Defined.

(** X18.  The parts of a token of two or more characters are the parts of
    the token without its first character, with that character put back:
    as a part of its own when the second character opens a new part, and
    in front of the first part otherwise. *)
Theorem splitCamel_cons (c d : N) (t : jsstring) :
  splitCamel (c :: d :: t) =
    if isUpper d && (isLower c || isUpper c && lowerAt (head t))
    then [c] :: splitCamel (d :: t)
    else match splitCamel (d :: t) with
         | p :: rest => (c :: p) :: rest
         | [] => [[c]]
         end.
Proof. by rewrite !splitCamel_partsFrom. Qed.

(** ** From kebab-case to camelCase and back *)

Lemma isLower_isAscii c : isLower c = true -> isAscii c = true.
Proof. classes. lia. Qed.

Lemma upperChar_not_delim c :
  isLower c = true -> Dot.isDelim (upperChar c) = false.
Proof. intros H. rewrite isDelim_upperChar. by apply lower_not_delim. Qed.

Lemma lowers_ascii r :
  Forall (fun a => isLower a = true) r -> forallb isAscii r = true.
Proof.
  intros H. apply forallb_Forall. eapply Forall_impl; [exact H|].
  intros a. apply isLower_isAscii.
Qed.

Lemma lowers_no_upper r :
  Forall (fun a => isLower a = true) r -> Forall (fun a => isUpper a = false) r.
Proof. intros H. eapply Forall_impl; [exact H|]. intros a. apply lower_not_upper. Qed.

(** A lowercase stretch [r] after any character, then an uppercase letter:
    the hyphen goes right before that letter. *)
Lemma insertHyphens_piece c r e y :
  r <> [] -> Forall (fun a => isLower a = true) r -> isUpper e = true ->
  Spec.insertHyphens ((c :: r) ++ e :: y)
  = (c :: r) ++ ch "-" :: Spec.insertHyphens (e :: y).
Proof.
  intros Hne Hr He. revert c. induction Hr as [|d r Hd Hr IH]; [done|].
  intros c. simpl app in *. rewrite insertHyphens_cons2.
  rewrite (lower_not_upper d Hd), andb_false_r. f_equal.
  destruct r as [|d' r].
  - simpl app. rewrite insertHyphens_cons2. by rewrite Hd, He.
  - by apply IH.
Qed.

Lemma insertHyphens_piece_end c r :
  Forall (fun a => isLower a = true) r ->
  Spec.insertHyphens (c :: r) = c :: r.
Proof.
  intros Hr. revert c. induction Hr as [|d r Hd Hr IH]; [done|]. intros c.
  rewrite insertHyphens_cons2.
  by rewrite (lower_not_upper d Hd), andb_false_r, IH.
Qed.

Lemma noUpperPair_lower r y :
  Forall (fun a => isLower a = true) r ->
  Parts.noUpperPair (r ++ y) = Parts.noUpperPair y.
Proof.
  induction 1 as [|d r Hd Hr IH]; [done|]. simpl.
  by rewrite (lower_not_upper d Hd), IH.
Qed.

Lemma noUpperPair_piece c r y :
  r <> [] -> Forall (fun a => isLower a = true) r ->
  Parts.noUpperPair ((c :: r) ++ y) = Parts.noUpperPair y.
Proof.
  intros Hne Hr. simpl. rewrite noUpperPair_lower by done.
  destruct Hr as [|d r Hd Hr]; [done|]. simpl.
  by rewrite (lower_not_upper d Hd), andb_false_r.
Qed.

Section RoundTrip.
Context {U : Unicode} {L : UnicodeLaws U}.

Lemma toLowerCase_lowers r :
  Forall (fun a => isLower a = true) r -> toLowerCase r = r.
Proof.
  intros H. rewrite lower_ascii by by apply lowers_ascii.
  by apply map_lowerChar_fixed, lowers_no_upper.
Qed.

Lemma lowerWord_dotWord w : Parts.lowerWord w -> Shape.dotWord w.
Proof.
  intros [Hlen Hw]. split; [destruct w; [simpl in Hlen; lia | done]|].
  split; [|split].
  - eapply Forall_impl; [exact Hw|]. intros c. apply lower_not_delim.
  - by apply lowers_no_upper.
  - by apply toLowerCase_lowers.
Qed.

Lemma capitalized_lowerWord w :
  Parts.lowerWord w ->
  exists c r, Spec.capitalized w = upperChar c :: r /\ isLower c = true /\
              r <> [] /\ Forall (fun a => isLower a = true) r.
Proof.
  intros [Hlen Hw]. destruct Hw as [|c r Hc Hr]; [simpl in Hlen; lia|].
  exists c, r. unfold Spec.capitalized. split.
  - rewrite upper_ascii by (simpl; by rewrite isLower_isAscii).
    by rewrite toLowerCase_lowers.
  - split; [done|]. split; [|done]. destruct r; [simpl in Hlen; lia | done].
Qed.

(** The words of a camelCase string made of a first piece and capitalized
    words. *)
Lemma camel_pieces c r rest :
  Dot.isDelim c = false -> r <> [] -> Forall (fun a => isLower a = true) r ->
  Forall Parts.lowerWord rest ->
  Spec.tokens Dot.isDelim
    (Spec.insertHyphens ((c :: r) ++ concat (map Spec.capitalized rest)))
  = (c :: r) :: map Spec.capitalized rest.
Proof.
  intros Hc Hne Hr Hrest. revert c r Hc Hne Hr.
  induction Hrest as [|w rest Hw Hrest IH]; intros c r Hc Hne Hr.
  - cbn [map concat]. rewrite app_nil_r, insertHyphens_piece_end by done.
    rewrite tokens_no_delim; [done|]. constructor; [done|].
    eapply Forall_impl; [exact Hr|]. intros a. apply lower_not_delim.
  - cbn [map concat].
    destruct (capitalized_lowerWord w Hw) as (c' & r' & -> & Hc' & Hne' & Hr').
    rewrite <- app_comm_cons with (x := r') (a := upperChar c').
    rewrite insertHyphens_piece by (try done; by apply isUpper_upperChar).
    rewrite tokens_app_delim; [| |done].
    + cbn [truthy app]. f_equal.
      change (upperChar c' :: r' ++ concat (map Spec.capitalized rest))
        with ((upperChar c' :: r') ++ concat (map Spec.capitalized rest)).
      apply IH; try done. by apply upperChar_not_delim.
    + constructor; [done|]. eapply Forall_impl; [exact Hr|].
      intros a. apply lower_not_delim.
Qed.

Lemma noUpperPair_camel c r rest :
  r <> [] -> Forall (fun a => isLower a = true) r ->
  Forall Parts.lowerWord rest ->
  Parts.noUpperPair ((c :: r) ++ concat (map Spec.capitalized rest)) = true.
Proof.
  intros Hne Hr Hrest. rewrite noUpperPair_piece by done. clear c r Hne Hr.
  induction Hrest as [|w rest Hw Hrest IH]; [done|]. cbn [map concat].
  destruct (capitalized_lowerWord w Hw) as (c' & r' & -> & Hc' & Hne' & Hr').
  by rewrite noUpperPair_piece.
Qed.

Lemma map_toLowerCase_capitalized rest :
  Forall Parts.lowerWord rest ->
  map toLowerCase (map Spec.capitalized rest) = rest.
Proof.
  induction 1 as [|w rest [Hlen Hw] _ IH]; [done|]. cbn [map]. rewrite IH. f_equal.
  destruct Hw as [|c r Hc Hr]; [simpl in Hlen; lia|]. unfold Spec.capitalized.
  rewrite upper_ascii by (simpl; by rewrite isLower_isAscii).
  rewrite (toLowerCase_lowers r) by done. cbn [map app].
  rewrite lower_ascii
    by (simpl; rewrite isAscii_upperChar, (isLower_isAscii c Hc);
        by apply lowers_ascii).
  cbn [map]. rewrite lowerChar_upperChar.
  rewrite lowerChar_fixed by by apply lower_not_upper.
  f_equal. by apply map_lowerChar_fixed, lowers_no_upper.
Qed.

(** X19.  From kebab-case to camelCase and back.  Words of two or more
    lowercase letters joined by hyphens are turned by [toCamelCase] into a
    camelCase string from which [toKebabCase] gives back the same
    kebab-case string, and [toDotCase] the same words joined by dots. *)
Theorem kebab_camel_round_trip (ws : list jsstring) :
  Forall Parts.lowerWord ws ->
  exists cam : jsstring,
    toCamelCase (VString (join [ch "-"] ws)) = Return cam /\
    toKebabCase (VString cam) = Return (join [ch "-"] ws) /\
    toDotCase (VString cam) = Return (join [ch "."] ws).
Proof.
  intros Hws. destruct ws as [|w rest].
  { exists []. cbn [join]. split; [by rewrite toCamelCase_ascii|].
    split; [by rewrite toKebabCase_ascii | by rewrite toDotCase_ascii]. }
  exists (w ++ concat (map Spec.capitalized rest)). split.
  { assert (Hd : Forall Shape.dotWord (w :: rest)).
    { eapply Forall_impl; [exact Hws|]. apply lowerWord_dotWord. }
    destruct rest as [|v rest].
    - cbn [join map concat]. rewrite app_nil_r.
      apply Forall_cons in Hws as [[_ Hw] _]. apply Forall_cons in Hd as [Hd _].
      by apply word_camelSingle; [|apply lowers_ascii].
    - by apply (words_camelWords (ch "-")). }
  apply Forall_cons in Hws as [[Hlen Hw] Hrest].
  destruct Hw as [|c r Hc Hr]; [simpl in Hlen; lia|].
  assert (Hne : r <> []) by (destruct r; [simpl in Hlen; lia | done]).
  assert (Hk : map toLowerCase
                 (Spec.tokens Dot.isDelim
                    (Spec.insertHyphens
                       ((c :: r) ++ concat (map Spec.capitalized rest))))
               = (c :: r) :: rest).
  { rewrite camel_pieces by (try done; by apply lower_not_delim).
    cbn [map]. rewrite map_toLowerCase_capitalized by done.
    by rewrite toLowerCase_lowers by by constructor. }
  split.
  - rewrite toKebabCase_words, hyphenateCamel_insertHyphens, kebab_dot_tokens.
    by rewrite Hk.
  - rewrite toDotCase_dotCase. unfold Spec.dotCase.
    rewrite tokens_trim by apply dot_isDelim_space.
    rewrite <- kebab_dot_same_parts by by apply noUpperPair_camel.
    by rewrite Hk.
Qed.

End RoundTrip.

Lemma kebab_camel_round_trip_witness :
  exists cam : jsstring,
    @toCamelCase asciiCase (VString (lit "make-this-camel")) = Return cam /\
    @toKebabCase asciiCase (VString cam) = Return (lit "make-this-camel") /\
    @toDotCase asciiCase (VString cam) = Return (lit "make.this.camel").
Proof.
  apply (@kebab_camel_round_trip asciiCase asciiLaws
           [lit "make"; lit "this"; lit "camel"]).
  repeat constructor; simpl; lia.
Defined.
